(** * DeTuiTra: the client-side session and data-synchronisation core

    A shallow embedding of [src/context/AppContext.tsx] (the [AppProvider]
    component) and the properties of its balance arithmetic, user cache,
    fund/transaction store and authentication listener.

    Conventions of the embedding.
    - A TypeScript [number] that holds a currency amount or a millisecond
      timestamp is a double with an integer value, written as a [Z].  The
      sum [calculateBalances] accumulates is a double again: the exact sum
      rounded to 53 significant bits, or an infinity ([Js.add_number]).
    - A JavaScript string is a [string]; one [ascii] stands for one UTF-16
      code unit, so [substring] counts the same units as [String.substring].
    - A plain object used as a dictionary keeps its own properties in a
      list, in insertion order ([JsObject]).  A read of a key that is not an
      own property sees the members of [Object.prototype]
      ([Js.object_prototype_members]): [calculateBalances] and the filter of
      [loadUsers] are embedded with that read.
    - [Record<string, User>] held in React state is a [gmap string User] of
      its own properties.  [getUserById] returns a [User]; for an id that
      names a member of [Object.prototype] and is not cached the source
      returns that member, which is no user, so the properties of that
      branch are stated for the other ids.
    - React state is the record [AppState]; an asynchronous function is a
      computation in the monad [App], which threads the state, appends the
      remote calls and notifications it issues and its writes of the fund
      list to a trace, and either resolves with a value or rejects with the
      thrown value.  The outcome of every
      remote call is an argument of the embedded function.
    - A parameter that shares its name with a record field carries a prime
      ([fundId'], [userId']). *)

From Stdlib Require Import ZArith String Ascii List Permutation Sorted Lia.
From stdpp Require Import gmap strings list fin_maps.

Local Open Scope string_scope.
Local Open Scope Z_scope.

(** ** Data model ([@/types]) *)

Record User := mkUser {
  user_id : string;
  displayName : string;
  email : string;
  photoURL : string;
  bankAccount : option string
}.

Record Fund := mkFund {
  fund_id : string;
  fund_name : string;
  fund_description : string;
  members : list string;
  fund_createdAt : Z;
  createdBy : string
}.

Record Split := mkSplit {
  userId : string;
  split_amount : Z
}.

Record Transaction := mkTransaction {
  tx_id : string;
  fundId : string;
  description : string;
  amount : Z;
  paidBy : string;
  splits : list Split;
  createdAt : Z;
  date : Z
}.

(** ** JavaScript values used by the component *)

Module Js.

(** Truthiness of a string and of a number. *)
Definition truthy_string (s : string) : bool :=
  match s with EmptyString => false | String _ _ => true end.

Definition truthy_number (n : Z) : bool := negb (n =? 0).

(** [a || b] on a possibly missing string: the left operand when it is
    truthy, the right one otherwise. *)
Definition or_string (a : option string) (b : string) : string :=
  match a with
  | Some s => if truthy_string s then s else b
  | None => b
  end.

(** A plain object or a [Map] keyed by strings: its own entries in
    insertion order, every key at most once. *)
Definition JsObject (V : Type) : Type := list (string * V).

(** The properties every plain object inherits from [Object.prototype].
    All of them are truthy: eleven functions and the accessor [__proto__],
    which reads as [Object.prototype] itself. *)
Definition object_prototype_members : list string :=
  ["constructor"; "__defineGetter__"; "__defineSetter__"; "hasOwnProperty";
   "__lookupGetter__"; "__lookupSetter__"; "isPrototypeOf";
   "propertyIsEnumerable"; "toString"; "valueOf"; "__proto__";
   "toLocaleString"].

Definition inherited (k : string) : bool :=
  bool_decide (k ∈ object_prototype_members).

(** A double with an integer value: finite, or an infinity. *)
Inductive JsNumber :=
| Finite (z : Z)
| Infinity (negative : bool).

(** The double nearest to an integer, ties to the even significand: an
    integer of magnitude below 2^53 is a double, a larger one keeps its 53
    leading bits. *)
Definition round_to_double (z : Z) : Z :=
  let a := Z.abs z in
  if a <? 2 ^ 53 then z
  else
    let e := Z.log2 a - 52 in
    let q := a / 2 ^ e in
    let r := a mod 2 ^ e in
    let half := 2 ^ (e - 1) in
    let q' := if (r <? half) || ((r =? half) && Z.even q) then q else q + 1 in
    Z.sgn z * (q' * 2 ^ e).

(** [a + b] for a finite [b]: the exact sum, rounded; a sum that rounds to
    2^1024 or beyond overflows to an infinity. *)
Definition add_number (a : JsNumber) (b : Z) : JsNumber :=
  match a with
  | Finite x =>
      let r := round_to_double (x + b) in
      if Z.abs r <? 2 ^ 1024 then Finite r else Infinity (r <? 0)
  | Infinity negative => Infinity negative
  end.

(** What a property of the [balances] object holds: a number, or the text
    that [+] makes of an inherited member [member] and the numbers appended
    to it since. *)
Inductive JsValue :=
| Number (n : JsNumber)
| Text (member : string) (appended : list Z).

Definition truthy (v : JsValue) : bool :=
  match v with
  | Number (Finite z) => truthy_number z
  | Number (Infinity _) => true
  | Text _ _ => true
  end.

(** [v + b] for a finite number [b]: addition on a number, concatenation on
    a text. *)
Definition plus (v : JsValue) (b : Z) : JsValue :=
  match v with
  | Number n => Number (add_number n b)
  | Text member appended => Text member (appended ++ [b])%list
  end.

Fixpoint get {V} (o : JsObject V) (k : string) : option V :=
  match o with
  | [] => None
  | (k', v) :: o' => if decide (k' = k) then Some v else get o' k
  end.

(** [o[k] = v] and [m.set(k, v)]: an existing key keeps its place. *)
Fixpoint set {V} (k : string) (v : V) (o : JsObject V) : JsObject V :=
  match o with
  | [] => [(k, v)]
  | (k', v') :: o' =>
      if decide (k' = k) then (k, v) :: o' else (k', v') :: set k v o'
  end.

Definition keys {V} (o : JsObject V) : list string := map fst o.

(** [Array.from(m.values())] of a [Map]: insertion order. *)
Definition values {V} (o : JsObject V) : list V := map snd o.

(** Property keys that are array indices (canonical decimal numerals below
    2^32 - 1) are enumerated first, in ascending numeric order. *)
Definition digit_of (c : ascii) : option N :=
  let n := N_of_ascii c in
  if ((48 <=? n) && (n <=? 57))%N then Some (n - 48)%N else None.

Fixpoint digits_value (s : string) (acc : N) : option N :=
  match s with
  | EmptyString => Some acc
  | String c s' =>
      match digit_of c with
      | Some d => digits_value s' (10 * acc + d)%N
      | None => None
      end
  end.

Definition array_index (s : string) : option N :=
  match s with
  | EmptyString => None
  | String c EmptyString => digit_of c
  | String c _ =>
      if decide (c = "0"%char) then None
      else match digits_value s 0%N with
           | Some n => if (n <? 4294967295)%N then Some n else None
           | None => None
           end
  end.

Definition is_index {V} (e : string * V) : bool :=
  match array_index (fst e) with Some _ => true | None => false end.

Definition index_le {V} (a b : string * V) : bool :=
  match array_index (fst a), array_index (fst b) with
  | Some i, Some j => (i <=? j)%N
  | _, _ => true
  end.

Fixpoint insert_by {A} (le : A -> A -> bool) (a : A) (l : list A) : list A :=
  match l with
  | [] => [a]
  | b :: l' => if le a b then a :: b :: l' else b :: insert_by le a l'
  end.

Definition sort_by {A} (le : A -> A -> bool) (l : list A) : list A :=
  fold_right (insert_by le) [] l.

(** [Object.entries(o)]: the array-index keys in ascending order, then the
    other keys in insertion order. *)
Definition entries {V} (o : JsObject V) : list (string * V) :=
  (sort_by index_le (List.filter is_index o)
     ++ List.filter (fun e => negb (is_index e)) o)%list.

End Js.

(** ** Balance calculator ([calculateBalances]) *)

(** One element of the array returned by [calculateBalances]. *)
Record Balance := mkBalance {
  balance_userId : string;
  balance_amount : Js.JsValue
}.

(** The body of the inner loop:
    [if (!balances[k]) balances[k] = 0; balances[k] += split.amount].
    [balances] starts as [{}], so a key that is not an own property reads
    as [undefined] or, for the name of a member of [Object.prototype], as
    that member.  The guard fires on [undefined] and on a stored zero.  The
    update adds to an own number, appends to an own text, and turns an
    inherited member into a text stored under the key; the text assigned to
    [__proto__] is dropped by its setter. *)
Definition add_split (balances : Js.JsObject Js.JsValue) (split : Split)
  : Js.JsObject Js.JsValue :=
  let k := userId split in
  let zero := Js.Number (Js.Finite 0) in
  let balances1 :=
    match Js.get balances k with
    | Some v => if Js.truthy v then balances else Js.set k zero balances
    | None => if Js.inherited k then balances else Js.set k zero balances
    end in
  match Js.get balances1 k with
  | Some v => Js.set k (Js.plus v (split_amount split)) balances1
  | None =>
      if Js.inherited k && negb (bool_decide (k = "__proto__"))
      then Js.set k (Js.Text k [split_amount split]) balances1
      else balances1
  end.

Definition calculateBalances (transactions : list Transaction) (fundId' : string)
  : list Balance :=
  let fundTransactions :=
    List.filter (fun transaction => bool_decide (fundId transaction = fundId'))
      transactions in
  let balances :=
    fold_left (fun balances transaction =>
                 fold_left add_split (splits transaction) balances)
      fundTransactions [] in
  map (fun e => mkBalance (fst e) (snd e)) (Js.entries balances).

(** The splits that belong to a fund, in the order the loops visit them, and
    the exact sum of one user's amounts among them. *)
Definition fund_splits (transactions : list Transaction) (f : string) : list Split :=
  flat_map splits
    (List.filter (fun t => bool_decide (fundId t = f)) transactions).

Definition split_total (u : string) (l : list Split) : Z :=
  fold_right Z.add 0
    (map split_amount (List.filter (fun s => bool_decide (userId s = u)) l)).

(** The running totals as section 4.3 words them: one integer per user,
    starting from zero, each split amount added to the total of its user. *)
Definition add_split_exact (totals : Js.JsObject Z) (split : Split)
  : Js.JsObject Z :=
  Js.set (userId split)
    (default 0 (Js.get totals (userId split)) + split_amount split) totals.

Definition exact_totals (l : list Split) : Js.JsObject Z :=
  fold_left add_split_exact l [].

(** An object of integers read as an object of numbers. *)
Definition as_numbers (totals : Js.JsObject Z) : Js.JsObject Js.JsValue :=
  map (fun e => (fst e, Js.Number (Js.Finite (snd e)))) totals.

(** Every total of the object has magnitude at most [B]. *)
Definition totals_within (B : Z) (b : Js.JsObject Z) : Prop :=
  ∀ k v, Js.get b k = Some v → Z.abs v <= B.

(** The inputs on which the running totals are exact: no split is filed
    under the name of a member of [Object.prototype], and the magnitudes of
    the amounts add up to at most 2^53, so every partial sum is a double. *)
Definition plain_userIds (l : list Split) : Prop :=
  ∀ s, s ∈ l → Js.inherited (userId s) = false.

Definition magnitude (l : list Split) : Z :=
  fold_right Z.add 0 (map (fun s => Z.abs (split_amount s)) l).

Definition exact_range (l : list Split) : Prop := magnitude l <= 2 ^ 53.

(** ** Split calculator ([calculateTransactionSplits])

    [createTransaction] calls [calculateTransactionSplits], imported from
    [@/utils/transactionUtils]. *)

Inductive SplitMode := EQUAL | PERCENTAGE | EXACT.

Record Participant := mkParticipant {
  participant_id : string;
  pct : Z
}.

Record TransactionDraft := mkDraft {
  draft_amount : Z;
  draft_paidBy : string;
  splitMode : SplitMode;
  participants : list Participant;
  manualSplits : list Split
}.

Definition sum_splits (l : list Split) : Z :=
  fold_right Z.add 0 (map split_amount l).

(** [Math.round(x / 100)]: the nearest integer, a half rounded up. *)
Definition round_div100 (x : Z) : Z := (2 * x + 100) / 200.

(** Adds [r] to the first entry of user [u]; [None] when there is none. *)
Fixpoint absorb_at (u : string) (r : Z) (l : list Split) : option (list Split) :=
  match l with
  | [] => None
  | s :: l' =>
      if decide (userId s = u)
      then Some (mkSplit (userId s) (split_amount s + r) :: l')
      else option_map (cons s) (absorb_at u r l')
  end.

Definition absorb_first (r : Z) (l : list Split) : list Split :=
  match l with
  | [] => []
  | s :: l' => mkSplit (userId s) (split_amount s + r) :: l'
  end.

(** Modelled from the spec: the implementation of [calculateTransactionSplits]
    ([@/utils/transactionUtils]) is missing from the sources.  Section 4.2:
    EQUAL divides the amount evenly across the participants and assigns the
    integer remainder to the first one; PERCENTAGE gives each participant
    [round(amount * pct / 100)] and lets the entry of [paidBy], or else the
    first participant, absorb the remainder; EXACT passes the manual splits
    through. *)
Definition calculateTransactionSplits (d : TransactionDraft) : list Split :=
  match splitMode d with
  | EQUAL =>
      let n := Z.of_nat (length (participants d)) in
      let share := draft_amount d / n in
      let remainder := draft_amount d - share * n in
      absorb_first remainder
        (map (fun p => mkSplit (participant_id p) share) (participants d))
  | PERCENTAGE =>
      let shares :=
        map (fun p => mkSplit (participant_id p)
                        (round_div100 (draft_amount d * pct p)))
          (participants d) in
      let remainder := draft_amount d - sum_splits shares in
      match absorb_at (draft_paidBy d) remainder shares with
      | Some l => l
      | None => absorb_first remainder shares
      end
  | EXACT => manualSplits d
  end.

(** ** Remote calls, notifications and the state of the provider *)

(** What a [catch] clause receives: an [Error] with its message, or any
    other thrown value. *)
Inductive JsError :=
| ErrorObject (message : string)
| ThrownValue.

(** [error instanceof Error ? error.message : fallback] *)
Definition errorMessage (e : JsError) (fallback : string) : string :=
  match e with
  | ErrorObject m => m
  | ThrownValue => fallback
  end.

(** How a promise settles. *)
Inductive Outcome (A : Type) :=
| Resolved (a : A)
| Rejected (e : JsError).
Arguments Resolved {A} a.
Arguments Rejected {A} e.

(** The identity delivered by the authentication provider. *)
Record FirebaseUser := mkFirebaseUser {
  uid : string;
  fb_displayName : option string;
  fb_email : option string;
  fb_photoURL : option string
}.

Inductive RemoteCall :=
| CallGetUsersByIds (ids : list string)
| CallGetUserFunds (user : string)
| CallGetFundTransactions (fund : string)
| CallDeleteFund (fund : string)
| CallSyncUser (user : string).

Inductive Event :=
| Remote (c : RemoteCall)
| FundsWritten
| ToastSuccess (msg : string)
| ToastError (msg : string).

(** The [currentUser] slot of [sessionStorage]: empty, a serialised user
    ([JSON.stringify] followed by [JSON.parse] gives the user back), or text
    that [JSON.parse] rejects. *)
Inductive Snapshot :=
| NoSnapshot
| StoredUser (u : User)
| Unparsable.

Record AppState := mkState {
  currentUser : option User;
  funds : list Fund;
  transactions : list Transaction;
  selectedFund : option Fund;
  isAuthLoading : bool;
  authInitialized : bool;
  isLoading : bool;
  users : gmap string User;
  hasInitiallyLoaded : bool;
  sessionStorage : Snapshot;
  trace : list Event
}.

(** The values the [useState] calls start from. *)
Definition initialState (storage : Snapshot) : AppState :=
  mkState None [] [] None true false false ∅ false storage [].

Definition setCurrentUser (v : option User) (s : AppState) : AppState :=
  mkState v (funds s) (transactions s) (selectedFund s) (isAuthLoading s)
    (authInitialized s) (isLoading s) (users s) (hasInitiallyLoaded s)
    (sessionStorage s) (trace s).

Definition setFunds (v : list Fund) (s : AppState) : AppState :=
  mkState (currentUser s) v (transactions s) (selectedFund s) (isAuthLoading s)
    (authInitialized s) (isLoading s) (users s) (hasInitiallyLoaded s)
    (sessionStorage s) (trace s).

Definition setTransactions (v : list Transaction) (s : AppState) : AppState :=
  mkState (currentUser s) (funds s) v (selectedFund s) (isAuthLoading s)
    (authInitialized s) (isLoading s) (users s) (hasInitiallyLoaded s)
    (sessionStorage s) (trace s).

Definition setSelectedFund (v : option Fund) (s : AppState) : AppState :=
  mkState (currentUser s) (funds s) (transactions s) v (isAuthLoading s)
    (authInitialized s) (isLoading s) (users s) (hasInitiallyLoaded s)
    (sessionStorage s) (trace s).

Definition setIsAuthLoading (v : bool) (s : AppState) : AppState :=
  mkState (currentUser s) (funds s) (transactions s) (selectedFund s) v
    (authInitialized s) (isLoading s) (users s) (hasInitiallyLoaded s)
    (sessionStorage s) (trace s).

Definition setAuthInitialized (v : bool) (s : AppState) : AppState :=
  mkState (currentUser s) (funds s) (transactions s) (selectedFund s)
    (isAuthLoading s) v (isLoading s) (users s) (hasInitiallyLoaded s)
    (sessionStorage s) (trace s).

Definition setIsLoading (v : bool) (s : AppState) : AppState :=
  mkState (currentUser s) (funds s) (transactions s) (selectedFund s)
    (isAuthLoading s) (authInitialized s) v (users s) (hasInitiallyLoaded s)
    (sessionStorage s) (trace s).

Definition setUsers (v : gmap string User) (s : AppState) : AppState :=
  mkState (currentUser s) (funds s) (transactions s) (selectedFund s)
    (isAuthLoading s) (authInitialized s) (isLoading s) v (hasInitiallyLoaded s)
    (sessionStorage s) (trace s).

Definition setHasInitiallyLoaded (v : bool) (s : AppState) : AppState :=
  mkState (currentUser s) (funds s) (transactions s) (selectedFund s)
    (isAuthLoading s) (authInitialized s) (isLoading s) (users s) v
    (sessionStorage s) (trace s).

Definition setSessionStorage (v : Snapshot) (s : AppState) : AppState :=
  mkState (currentUser s) (funds s) (transactions s) (selectedFund s)
    (isAuthLoading s) (authInitialized s) (isLoading s) (users s)
    (hasInitiallyLoaded s) v (trace s).

Definition emit (e : Event) (s : AppState) : AppState :=
  mkState (currentUser s) (funds s) (transactions s) (selectedFund s)
    (isAuthLoading s) (authInitialized s) (isLoading s) (users s)
    (hasInitiallyLoaded s) (sessionStorage s) (trace s ++ [e])%list.

(** The remote calls of a trace, in the order they were issued. *)
Definition remote_calls (t : list Event) : list RemoteCall :=
  omap (fun e => match e with Remote c => Some c | _ => None end) t.

(** ** The monad of asynchronous functions *)

Definition App (A : Type) : Type := AppState -> Outcome A * AppState.

Definition ret {A} (a : A) : App A := fun s => (Resolved a, s).

Definition throw {A} (e : JsError) : App A := fun s => (Rejected e, s).

Definition bind {A B} (m : App A) (k : A -> App B) : App B :=
  fun s =>
    match m s with
    | (Resolved a, s') => k a s'
    | (Rejected e, s') => (Rejected e, s')
    end.

(** A state setter or a logged effect. *)
Definition act (f : AppState -> AppState) : App unit :=
  fun s => (Resolved tt, f s).

(** A call of [setFunds]: the write is recorded in the trace, so the trace
    tells whether a remote call was issued before or after it. *)
Definition write_funds (f : AppState -> AppState) : App unit :=
  fun s => (Resolved tt, emit FundsWritten (f s)).

(** [try { body } catch (error) { handler }] *)
Definition try_catch {A} (body : App A) (handler : JsError -> App A) : App A :=
  fun s =>
    match body s with
    | (Resolved a, s') => (Resolved a, s')
    | (Rejected e, s') => handler e s'
    end.

(** [try { body } finally { cleanup }]: the cleanup runs on both exits and
    the outcome of the body stands. *)
Definition try_finally {A} (body : App A) (cleanup : AppState -> AppState) : App A :=
  fun s => let (r, s') := body s in (r, cleanup s').

(** [await call]: the call is issued, then the promise settles. *)
Definition await {A} (c : RemoteCall) (settled : Outcome A) : App A :=
  fun s => (settled, emit (Remote c) s).

Declare Scope app_scope.
Delimit Scope app_scope with app.
Notation "'do' x <- m ; k" := (bind m (fun x => k))
  (at level 10, x name, m at level 100, k at level 200) : app_scope.
Local Open Scope app_scope.

(** A callback reads the constants of the render that created it.  The
    context hands out the callbacks of the latest render, so a callback taken
    from the context closes over the state it is invoked in. *)
Definition with_render {A} (k : AppState -> App A) : App A := fun s => k s s.

(** ** User cache ([getUserById], [loadUsers]) *)

Definition unknownUser : User := mkUser "unknown" "Unknown User" "" "" None.

(** [`User ${String(id).substring(0, 4)}`] *)
Definition placeholderUser (id : string) : User :=
  mkUser id (String.append "User " (substring 0 4 id)) "" "" None.

(** [users[id] || { id, displayName: ..., email: '', photoURL: '' }] for an
    id that names no member of [Object.prototype]. *)
Definition cachedOrPlaceholder (s : AppState) (id : string) : User :=
  match users s !! id with
  | Some u => u
  | None => placeholderUser id
  end.

(** The argument is declared a string; [None] is [null] or [undefined]
    reaching the function at run time. *)
Definition falsy_id (id : option string) : bool :=
  match id with
  | Some s => negb (Js.truthy_string s)
  | None => true
  end.

Definition getUserById (s : AppState) (id : option string) : User :=
  match id with
  | None => unknownUser
  | Some id' =>
      if negb (Js.truthy_string id') then unknownUser
      else match currentUser s with
           | Some cu =>
               if decide (user_id cu = id') then cu else cachedOrPlaceholder s id'
           | None => cachedOrPlaceholder s id'
           end
  end.

(** [[...new Set(userIds)]]: the first occurrence of every id, in order. *)
Definition dedupe (l : list string) : list string :=
  fold_left (fun seen x => if bool_decide (x ∈ seen) then seen else (seen ++ [x])%list) l [].

(** [id && id !== currentUser?.id && !users[id]]: the read [users[id]] is
    truthy for a cached id and for the name of a member of
    [Object.prototype]. *)
Definition uniqueIds (render : AppState) (userIds : list string) : list string :=
  List.filter
    (fun id => Js.truthy_string id
               && negb (bool_decide (Some id = user_id <$> currentUser render))
               && negb (bool_decide (is_Some (users render !! id))
                        || Js.inherited id))
    (dedupe userIds).

(** The updater passed to [setUsers]: a copy of [prev] that receives every
    entry of the fetched map. *)
Definition mergeUsers (usersMap : Js.JsObject User) (prev : gmap string User)
  : gmap string User :=
  fold_left (fun newUsers e => <[fst e := snd e]> newUsers) usersMap prev.

Definition loadUsers (userIds : list string)
    (settled : Outcome (Js.JsObject User)) : App unit :=
  with_render (fun render =>
    if (length userIds =? 0)%nat then ret tt
    else
      let uniqueIds' := uniqueIds render userIds in
      if (length uniqueIds' =? 0)%nat then ret tt
      else
        try_finally
          (try_catch
             (do _ <- act (setIsLoading true);
              do usersMap <- await (CallGetUsersByIds uniqueIds') settled;
              act (fun s => setUsers (mergeUsers usersMap (users s)) s))
             (fun error => ret tt))
          (setIsLoading false)).

(** Modelled from the spec: [getUsersByIds] of [@/firebase/userService] is
    missing from the sources.  Section 6 gives it the contract
    [getUsersByIds(ids) -> Map<id,User>]: the profiles of the requested ids
    that exist in the remote user collection [db]. *)
Definition getUsersByIds (db : gmap string User) (ids : list string)
  : Js.JsObject User :=
  omap (fun id => match db !! id with Some u => Some (id, u) | None => None end) ids.

(** ** Fund store ([loadUserFunds], [deleteFund]) *)

(** [l.forEach(fund => uniqueFundsMap.set(fund.id, fund))] *)
Definition setAll (l : list Fund) (uniqueFundsMap : Js.JsObject Fund)
  : Js.JsObject Fund :=
  fold_left (fun m fund => Js.set (fund_id fund) fund m) l uniqueFundsMap.

Definition mergeFunds (funds userFunds : list Fund) : list Fund :=
  let uniqueFundsMap := setAll funds [] in
  let uniqueFundsMap := setAll userFunds uniqueFundsMap in
  Js.values uniqueFundsMap.

(** Every entry of the map is filed under the id of its fund. *)
Definition keyed_by_id (m : Js.JsObject Fund) : Prop :=
  ∀ k f, (k, f) ∈ m → fund_id f = k.

(** The last fund of a list that carries a given id. *)
Definition latest (l : list Fund) (k : string) : option Fund :=
  List.find (fun f => bool_decide (fund_id f = k)) (rev l).

(** [loadUserFunds] as created by a render whose [funds] is [captured]
    ([useCallback] with the dependency list [[funds]]). *)
Definition loadUserFundsOf (captured : list Fund) (userId' : string)
    (settled : Outcome (list Fund)) : App unit :=
  if negb (Js.truthy_string userId') then ret tt
  else
    try_finally
      (try_catch
         (do _ <- act (setIsLoading true);
          do userFunds <- await (CallGetUserFunds userId') settled;
          do _ <- write_funds (setFunds (mergeFunds captured userFunds));
          act (setHasInitiallyLoaded true))
         (fun error =>
            do _ <- act (emit (ToastError "Không thể tải danh sách quỹ"));
            act (setHasInitiallyLoaded true)))
      (setIsLoading false).

(** [loadUserFunds] as the context exposes it. *)
Definition loadUserFunds (userId' : string) (settled : Outcome (list Fund))
  : App unit :=
  with_render (fun render => loadUserFundsOf (funds render) userId' settled).

Definition selected_is (s : AppState) (fundId' : string) : bool :=
  match selectedFund s with
  | Some f => bool_decide (fund_id f = fundId')
  | None => false
  end.

Definition deleteFund (fundId' : string) (settled : Outcome unit) : App bool :=
  with_render (fun render =>
    match currentUser render with
    | None => ret false
    | Some _ =>
        try_finally
          (try_catch
             (do _ <- act (setIsLoading true);
              do _ <- await (CallDeleteFund fundId') settled;
              do _ <- write_funds (fun s =>
                        setFunds
                          (List.filter
                             (fun f => negb (bool_decide (fund_id f = fundId')))
                             (funds s)) s);
              do _ <- (if selected_is render fundId'
                       then act (setSelectedFund None) else ret tt);
              do _ <- act (emit (ToastSuccess "Quỹ đã được xóa thành công!"));
              ret true)
             (fun error =>
                do _ <- act (emit (ToastError (errorMessage error "Không thể xóa quỹ")));
                ret false))
          (setIsLoading false)
    end).

(** ** Transaction store ([loadFundTransactions]) *)

(** A transaction as the document store returns it: any field may be
    missing.  [raw_amount] is [None] when [typeof amount] is not ['number'],
    [raw_splits] is [None] when the field is not an array. *)
Record RawTransaction := mkRaw {
  raw_id : option string;
  raw_fundId : option string;
  raw_description : option string;
  raw_amount : option Z;
  raw_paidBy : option string;
  raw_splits : option (list Split);
  raw_createdAt : option Z;
  raw_date : option Z
}.

(** [Date.now()]: the reading of the [n]-th call. *)
Definition Clock : Type := nat -> Z.

(** [a || Date.now()]: the clock is read only when [a] is falsy. *)
Definition or_now (a : option Z) (clock : Clock) (tick : nat) : Z * nat :=
  match a with
  | Some n => if Js.truthy_number n then (n, tick) else (clock tick, S tick)
  | None => (clock tick, S tick)
  end.

(** [a || b] with both operands possibly missing. *)
Definition or_else (a b : option Z) : option Z :=
  match a with
  | Some n => if Js.truthy_number n then a else b
  | None => b
  end.

(** A missing or zero number, the operands for which [||] moves on. *)
Definition falsy_number (a : option Z) : bool :=
  match a with
  | Some n => negb (Js.truthy_number n)
  | None => true
  end.

(** The callback of [fundTransactions.map]. *)
Definition validTransaction (fundId' : string) (clock : Clock) (tick : nat)
    (transaction : RawTransaction) : Transaction * nat :=
  let (createdAt', tick1) := or_now (raw_createdAt transaction) clock tick in
  let (date', tick2) :=
    or_now (or_else (raw_date transaction) (raw_createdAt transaction)) clock tick1 in
  (mkTransaction
     (Js.or_string (raw_id transaction) "unknown")
     (Js.or_string (raw_fundId transaction) fundId')
     (Js.or_string (raw_description transaction) "Giao dịch")
     (match raw_amount transaction with Some n => n | None => 0 end)
     (Js.or_string (raw_paidBy transaction) "")
     (match raw_splits transaction with Some l => l | None => [] end)
     createdAt'
     date',
   tick2).

Fixpoint processTransactions (fundId' : string) (clock : Clock) (tick : nat)
    (l : list RawTransaction) : list Transaction :=
  match l with
  | [] => []
  | t :: l' =>
      let (v, tick') := validTransaction fundId' clock tick t in
      v :: processTransactions fundId' clock tick' l'
  end.

(** [a.date || a.createdAt] *)
Definition effective_date (t : Transaction) : Z :=
  if Js.truthy_number (date t) then date t else createdAt t.

(** The comparator [(a, b) => dateB - dateA]. *)
Definition compare_by_date (a b : Transaction) : Z :=
  effective_date b - effective_date a.

(** [Array.prototype.sort] is stable: an element stays before the later
    elements it does not compare greater than. *)
Definition sortTransactions (l : list Transaction) : list Transaction :=
  Js.sort_by (fun a b => compare_by_date a b <=? 0) l.

Definition loadFundTransactions (fundId' : string)
    (settled : Outcome (list RawTransaction)) (clock : Clock) : App unit :=
  if negb (Js.truthy_string fundId') then ret tt
  else
    try_finally
      (try_catch
         (do _ <- act (setIsLoading true);
          do fundTransactions <- await (CallGetFundTransactions fundId') settled;
          if (length fundTransactions =? 0)%nat
          then act (setTransactions [])
          else
            let processedTransactions :=
              processTransactions fundId' clock 0 fundTransactions in
            act (setTransactions (sortTransactions processedTransactions)))
         (fun error => act (emit (ToastError "Không thể tải danh sách giao dịch"))))
      (setIsLoading false).

(** The order the specification describes: descending [date], equal dates
    in descending [createdAt]. *)
Definition date_then_createdAt (a b : Transaction) : bool :=
  (date b <? date a) || ((date a =? date b) && (createdAt b <=? createdAt a)).

Fixpoint sortedb {A} (le : A -> A -> bool) (l : list A) : bool :=
  match l with
  | [] => true
  | a :: l' => forallb (le a) l' && sortedb le l'
  end.

(** ** Session manager (the authentication listener) *)

Definition convertFirebaseUser (firebaseUser : FirebaseUser) : User :=
  mkUser (uid firebaseUser)
    (Js.or_string (fb_displayName firebaseUser) "User")
    (Js.or_string (fb_email firebaseUser) "")
    (Js.or_string (fb_photoURL firebaseUser) "")
    None.

(** What the effect registered with an empty dependency list closes over:
    [currentUser] and [loadUserFunds] (hence [funds]) are constants of the
    render the effect ran in, [hasRestoredFromCache] is a variable of the
    effect itself. *)
Record AuthClosure := mkClosure {
  seen_currentUser : option User;
  seen_funds : list Fund;
  hasRestoredFromCache : bool
}.

(** The body of the effect up to the subscription.  [cachedFunds] settles
    the background [loadUserFunds] of a restored user. *)
Definition restoreSession (cachedFunds : Outcome (list Fund)) : App AuthClosure :=
  with_render (fun render =>
    match sessionStorage render with
    | NoSnapshot =>
        ret (mkClosure (currentUser render) (funds render) false)
    | StoredUser parsedUser =>
        do _ <- act (setCurrentUser (Some parsedUser));
        do _ <- act (setIsAuthLoading false);
        do _ <- try_catch
                  (loadUserFundsOf (funds render) (user_id parsedUser) cachedFunds)
                  (fun error => ret tt);
        ret (mkClosure (currentUser render) (funds render) true)
    | Unparsable =>
        do _ <- act (setSessionStorage NoSnapshot);
        ret (mkClosure (currentUser render) (funds render) false)
    end).

Definition already_loaded (cl : AuthClosure) (firebaseUser : FirebaseUser) : bool :=
  match seen_currentUser cl with
  | Some cu => bool_decide (user_id cu = uid firebaseUser) && hasRestoredFromCache cl
  | None => false
  end.

(** The callback given to [onAuthStateChange].  [synced] settles
    [syncUserWithFirestore], [fetchedFunds] the [loadUserFunds] it starts.
    The callback does not wait for that load; its state updates touch other
    fields than the ones written after it, so they are applied in place. *)
Definition onAuthStateChange (cl : AuthClosure) (firebaseUser : option FirebaseUser)
    (synced : Outcome User) (fetchedFunds : Outcome (list Fund)) : App unit :=
  do _ <- act (setAuthInitialized true);
  match firebaseUser with
  | Some fu =>
      if already_loaded cl fu
      then
        do _ <- try_catch
                  (do _ <- await (CallSyncUser (uid fu)) synced; ret tt)
                  (fun error => ret tt);
        act (setIsAuthLoading false)
      else
        try_finally
          (try_catch
             (do fullUser <- await (CallSyncUser (uid fu)) synced;
              do _ <- act (setCurrentUser (Some fullUser));
              do _ <- act (setSessionStorage (StoredUser fullUser));
              if negb (hasRestoredFromCache cl)
              then try_catch
                     (loadUserFundsOf (seen_funds cl) (user_id fullUser) fetchedFunds)
                     (fun error => ret tt)
              else ret tt)
             (fun error =>
                let basicUser := convertFirebaseUser fu in
                do _ <- act (setCurrentUser (Some basicUser));
                act (setSessionStorage (StoredUser basicUser))))
          (setIsAuthLoading false)
  | None =>
      do _ <- act (setCurrentUser None);
      do _ <- write_funds (setFunds []);
      do _ <- act (setTransactions []);
      do _ <- act (setUsers ∅);
      do _ <- act (setHasInitiallyLoaded false);
      do _ <- act (setSessionStorage NoSnapshot);
      act (setIsAuthLoading false)
  end.

(** The provider from its first render to the end of one authentication
    event. *)
Definition sessionAfterEvent (storage : Snapshot) (cachedFunds : Outcome (list Fund))
    (firebaseUser : option FirebaseUser) (synced : Outcome User)
    (fetchedFunds : Outcome (list Fund)) : Outcome unit * AppState :=
  (do cl <- restoreSession cachedFunds;
   onAuthStateChange cl firebaseUser synced fetchedFunds) (initialState storage).

(** ** The remaining operations of the provider

    The services called below are given as functions of their arguments;
    awaiting one of them settles the promise and leaves the trace alone. *)

Definition awaited {A} (settled : Outcome A) : App A := fun s => (settled, s).

(** [Omit<Fund, "id" | "createdAt" | "createdBy">] *)
Record FundDraft := mkFundDraft {
  new_name : string;
  new_description : string;
  new_members : list string
}.

(** [Partial<Omit<Fund, "id" | "createdAt" | "createdBy">>]: [None] is a
    property the patch does not have. *)
Record FundPatch := mkFundPatch {
  patch_name : option string;
  patch_description : option string;
  patch_members : option (list string)
}.

(** [{ ...fund, ...fundData }] *)
Definition applyPatch (fund : Fund) (fundData : FundPatch) : Fund :=
  mkFund (fund_id fund)
    (default (fund_name fund) (patch_name fundData))
    (default (fund_description fund) (patch_description fundData))
    (default (members fund) (patch_members fundData))
    (fund_createdAt fund)
    (createdBy fund).

Definition createFund (createFirebaseFund : FundDraft -> string -> Outcome Fund)
    (fund : FundDraft) : App (option Fund) :=
  with_render (fun render =>
    match currentUser render with
    | None => ret None
    | Some cu =>
        try_finally
          (try_catch
             (do _ <- act (setIsLoading true);
              do newFund <- awaited (createFirebaseFund fund (user_id cu));
              do _ <- write_funds (fun s => setFunds (funds s ++ [newFund])%list s);
              do _ <- act (setSelectedFund (Some newFund));
              do _ <- act (emit (ToastSuccess "Đã tạo quỹ mới thành công!"));
              ret (Some newFund))
             (fun error =>
                do _ <- act (emit (ToastError (errorMessage error "Không thể tạo quỹ mới")));
                ret None))
          (setIsLoading false)
    end).

Definition updateFund (updateFirebaseFund : string -> FundPatch -> Outcome unit)
    (fundId' : string) (fundData : FundPatch) : App bool :=
  with_render (fun render =>
    match currentUser render with
    | None => ret false
    | Some _ =>
        try_finally
          (try_catch
             (do _ <- act (setIsLoading true);
              do _ <- awaited (updateFirebaseFund fundId' fundData);
              do _ <- write_funds (fun s =>
                        setFunds
                          (map (fun fund =>
                                  if bool_decide (fund_id fund = fundId')
                                  then applyPatch fund fundData else fund)
                             (funds s)) s);
              do _ <- (if selected_is render fundId'
                       then act (fun s =>
                              setSelectedFund
                                (match selectedFund s with
                                 | Some prevFund => Some (applyPatch prevFund fundData)
                                 | None => None
                                 end) s)
                       else ret tt);
              ret true)
             (fun error =>
                do _ <- act (emit (ToastError (errorMessage error "Không thể cập nhật quỹ")));
                ret false))
          (setIsLoading false)
    end).

(** [getFundById] of the context ([fetchFundById]); the service resolves
    with [None] for [null]. *)
Definition fetchFundById (getFundById : string -> Outcome (option Fund))
    (fundId' : string) : App (option Fund) :=
  with_render (fun render =>
    try_finally
      (try_catch
         (do _ <- act (setIsLoading true);
          do fundData <- awaited (getFundById fundId');
          do _ <- match fundData with
                  | Some fetched =>
                      match List.find (fun f => bool_decide (fund_id f = fundId'))
                              (funds render) with
                      | Some existingFund => ret tt
                      | None => write_funds (fun s => setFunds (funds s ++ [fetched])%list s)
                      end
                  | None => ret tt
                  end;
          ret fundData)
         (fun error =>
            do _ <- act (emit (ToastError "Không thể tải dữ liệu quỹ"));
            ret None))
      (setIsLoading false)).

(** [Omit<Transaction, "id" | "createdAt">]; the date may be missing. *)
Record NewTransaction := mkNewTransaction {
  new_fundId : string;
  new_tx_description : string;
  new_amount : Z;
  new_paidBy : string;
  new_splits : list Split;
  new_date : option Z
}.

(** The object sent to the store: the date defaults to the clock and the
    splits are the computed ones.  [calculate] stands for
    [calculateTransactionSplits], whose implementation is not part of the
    sources. *)
Definition transactionWithDate (calculate : NewTransaction -> list Split)
    (clock : Clock) (transaction : NewTransaction) : NewTransaction :=
  mkNewTransaction (new_fundId transaction) (new_tx_description transaction)
    (new_amount transaction) (new_paidBy transaction)
    (calculate transaction)
    (Some (fst (or_now (new_date transaction) clock 0))).

(** The updater given to [setTransactions]: a transaction whose id is
    already present replaces the holders of that id, a new one goes last. *)
Definition upsertTransaction (newTransaction : Transaction)
    (prev : list Transaction) : list Transaction :=
  if existsb (fun t => bool_decide (tx_id t = tx_id newTransaction)) prev
  then map (fun t => if bool_decide (tx_id t = tx_id newTransaction)
                     then newTransaction else t) prev
  else (prev ++ [newTransaction])%list.

Definition createTransaction (calculate : NewTransaction -> list Split)
    (createFirebaseTransaction : NewTransaction -> Outcome Transaction)
    (clock : Clock) (transaction : NewTransaction) : App (option Transaction) :=
  try_finally
    (try_catch
       (do _ <- act (setIsLoading true);
        do newTransaction <-
          awaited (createFirebaseTransaction
                     (transactionWithDate calculate clock transaction));
        do _ <- act (fun s =>
                  setTransactions (upsertTransaction newTransaction (transactions s)) s);
        do _ <- act (emit (ToastSuccess "Đã thêm giao dịch mới thành công!"));
        ret (Some newTransaction))
       (fun error =>
          do _ <- act (emit (ToastError (errorMessage error "Không thể tạo giao dịch mới")));
          ret None))
    (setIsLoading false).

(** [deleteTransaction] of the context ([deleteTransactionById]). *)
Definition deleteTransactionById (deleteTransaction : string -> Outcome unit)
    (transactionId : string) : App bool :=
  try_finally
    (try_catch
       (do _ <- act (setIsLoading true);
        do _ <- awaited (deleteTransaction transactionId);
        do _ <- act (fun s =>
                  setTransactions
                    (List.filter
                       (fun transaction =>
                          negb (bool_decide (tx_id transaction = transactionId)))
                       (transactions s)) s);
        do _ <- act (emit (ToastSuccess "Giao dịch đã được xóa thành công!"));
        ret true)
       (fun error =>
          do _ <- act (emit (ToastError (errorMessage error "Không thể xóa giao dịch")));
          ret false))
    (setIsLoading false).

Definition findUserByEmail (findUserByEmailFirestore : string -> Outcome (option User))
    (email' : string) : App (option User) :=
  if negb (Js.truthy_string email') then ret None
  else
    try_finally
      (try_catch
         (do _ <- act (setIsLoading true);
          awaited (findUserByEmailFirestore email'))
         (fun error =>
            do _ <- act (emit (ToastError "Không thể tìm kiếm người dùng"));
            ret None))
      (setIsLoading false).

(** [fetchedFunds] settles the [getUserFunds] call of the reload. *)
Definition addMemberByEmail (addUserToFundByEmail : string -> string -> Outcome bool)
    (fetchedFunds : Outcome (list Fund)) (fundId' email' : string) : App bool :=
  with_render (fun render =>
    if negb (Js.truthy_string fundId') || negb (Js.truthy_string email')
    then ret false
    else
      try_finally
        (try_catch
           (do _ <- act (setIsLoading true);
            do result <- awaited (addUserToFundByEmail fundId' email');
            do _ <- (if result
                     then
                       do _ <- match currentUser render with
                               | Some cu =>
                                   loadUserFundsOf (funds render) (user_id cu) fetchedFunds
                               | None => ret tt
                               end;
                       act (emit (ToastSuccess "Thành viên đã được thêm vào quỹ"))
                     else
                       act (emit (ToastError "Không tìm thấy người dùng với email này")));
            ret result)
           (fun error =>
              do _ <- act (emit (ToastError "Không thể thêm thành viên"));
              ret false))
        (setIsLoading false)).

(** [refreshedUsers.get(currentUser.id)] reads the map the batch call
    resolved with. *)
Definition refreshCurrentUser (settled : Outcome (Js.JsObject User)) : App unit :=
  with_render (fun render =>
    match currentUser render with
    | None => ret tt
    | Some cu =>
        if negb (Js.truthy_string (user_id cu)) then ret tt
        else
          try_catch
            (do refreshedUsers <- await (CallGetUsersByIds [user_id cu]) settled;
             match Js.get refreshedUsers (user_id cu) with
             | Some updatedUser =>
                 do _ <- act (setCurrentUser (Some updatedUser));
                 act (setSessionStorage (StoredUser updatedUser))
             | None => ret tt
             end)
            (fun error => ret tt)
    end).

(** [login]: the notification of a success carries a display duration,
    which the trace does not keep. *)
Definition login (loginWithGoogle : Outcome unit) : App unit :=
  try_finally
    (try_catch
       (do _ <- act (setIsAuthLoading true);
        do _ <- awaited loginWithGoogle;
        act (emit (ToastSuccess "Đăng nhập thành công!")))
       (fun error =>
          do _ <- act (emit (ToastError (errorMessage error "Đăng nhập thất bại")));
          throw error))
    (setIsAuthLoading false).

(** The callback of the three-second timer of the effect; it reads the
    [authInitialized] of the render the effect ran in. *)
Definition authTimeout (seen_authInitialized : bool) : App unit :=
  if negb seen_authInitialized
  then
    do _ <- act (setIsAuthLoading false);
    act (setAuthInitialized true)
  else ret tt.

(** ** Consumers of the context *)

(** What [ProtectedRoute] renders. *)
Inductive RouteView := ShowSkeleton | ShowLogin | ShowOutlet.

Definition protectedRoute (s : AppState) : RouteView :=
  if negb (authInitialized s) || isAuthLoading s then ShowSkeleton
  else if authInitialized s && negb (bool_decide (is_Some (currentUser s)))
       then ShowLogin
       else ShowOutlet.

(** The ids the effect of [Dashboard] collects in its [Set]: every truthy
    member id of every fund, in order of first appearance. *)
Definition fundMemberIds (funds : list Fund) : list string :=
  dedupe (List.filter Js.truthy_string (flat_map members funds)).

(** The effect of [Dashboard] on the provider; the component's own
    [usersLoadingForFunds] flag is not part of the provider's state. *)
Definition loadFundMembers (settled : Outcome (Js.JsObject User)) : App unit :=
  with_render (fun render =>
    if negb (hasInitiallyLoaded render) || (length (funds render) =? 0)%nat
    then ret tt
    else
      let userIdsArray := fundMemberIds (funds render) in
      if (0 <? length userIdsArray)%nat
      then loadUsers userIdsArray settled
      else ret tt).

(** The selected fund, if any, is one of the local funds. *)
Definition selection_listed (s : AppState) : Prop :=
  ∀ f, selectedFund s = Some f → f ∈ funds s.

(** ** The provider as a transition system *)

(** The stored snapshot is the current user. *)
Definition snapshot_of (u : option User) : Snapshot :=
  match u with
  | Some v => StoredUser v
  | None => NoSnapshot
  end.

(** The sum of a list of balances whose amounts are finite numbers. *)
Definition sum_balances (l : list Balance) : option Z :=
  fold_right
    (fun e total =>
       match balance_amount e, total with
       | Js.Number (Js.Finite z), Some t => Some (z + t)
       | _, _ => None
       end)
    (Some 0) l.

(** One completed operation of the provider. *)
Inductive step : AppState -> AppState -> Prop :=
| step_authEvent cl firebaseUser synced fetchedFunds s :
    step s (snd (onAuthStateChange cl firebaseUser synced fetchedFunds s))
| step_authTimeout seen s :
    step s (snd (authTimeout seen s))
| step_login settled s :
    step s (snd (login settled s))
| step_refreshCurrentUser settled s :
    step s (snd (refreshCurrentUser settled s))
| step_loadUsers userIds settled s :
    step s (snd (loadUsers userIds settled s))
| step_findUserByEmail service email' s :
    step s (snd (findUserByEmail service email' s))
| step_addMemberByEmail service fetchedFunds fundId' email' s :
    step s (snd (addMemberByEmail service fetchedFunds fundId' email' s))
| step_loadUserFunds userId' settled s :
    step s (snd (loadUserFunds userId' settled s))
| step_loadFundTransactions fundId' settled clock s :
    step s (snd (loadFundTransactions fundId' settled clock s))
| step_createFund service fund s :
    step s (snd (createFund service fund s))
| step_updateFund service fundId' fundData s :
    step s (snd (updateFund service fundId' fundData s))
| step_deleteFund fundId' settled s :
    step s (snd (deleteFund fundId' settled s))
| step_fetchFundById service fundId' s :
    step s (snd (fetchFundById service fundId' s))
| step_createTransaction calculate service clock transaction s :
    step s (snd (createTransaction calculate service clock transaction s))
| step_deleteTransaction service transactionId s :
    step s (snd (deleteTransactionById service transactionId s))
| step_setSelectedFund fund s :
    step s (setSelectedFund fund s).

(** The states the provider passes through after it has mounted on a given
    content of the session storage. *)
Inductive reachable (storage : Snapshot) : AppState -> Prop :=
| reachable_mount cachedFunds :
    reachable storage (snd (restoreSession cachedFunds (initialState storage)))
| reachable_step s s' :
    reachable storage s -> step s s' -> reachable storage s'.

(** * Properties *)

(** ** Objects and maps keyed by strings *)

Section JsObjects.
Context {V : Type}.
Implicit Types (o : Js.JsObject V) (k : string) (v : V).

Lemma get_set_eq o k v : Js.get (Js.set k v o) k = Some v.
Proof.
  induction o as [|[k' v'] o IH]; cbn [Js.get Js.set Js.keys map fst].
  - by rewrite decide_True.
  - destruct (decide (k' = k)) as [->|Hne]; cbn [Js.get Js.set Js.keys map fst].
    + by rewrite decide_True.
    + by rewrite decide_False.
Qed.

Lemma get_set_ne o k k' v : k ≠ k' → Js.get (Js.set k v o) k' = Js.get o k'.
Proof.
  intros Hne. induction o as [|[k0 v0] o IH]; cbn [Js.get Js.set Js.keys map fst].
  - by rewrite decide_False.
  - destruct (decide (k0 = k)) as [->|Hne0]; cbn [Js.get Js.set Js.keys map fst].
    + by rewrite !decide_False.
    + by rewrite IH.
Qed.

Lemma get_None_keys o k : Js.get o k = None ↔ k ∉ Js.keys o.
Proof.
  unfold Js.keys.
  induction o as [|[k0 v0] o IH]; cbn [Js.get Js.set map fst].
  - split; [intros _; apply not_elem_of_nil | done].
  - rewrite not_elem_of_cons. destruct (decide (k0 = k)) as [->|Hne].
    + split; [done | intros [? _]; done].
    + rewrite IH. split; [intros ?; split; [congruence | done] | by intros [_ ?]].
Qed.

Lemma get_Some_keys o k : is_Some (Js.get o k) ↔ k ∈ Js.keys o.
Proof.
  rewrite <- not_eq_None_Some, get_None_keys.
  split; [apply dec_stable | by intros ? ?].
Qed.

Lemma keys_set o k v :
  Js.keys (Js.set k v o)
  = if decide (k ∈ Js.keys o) then Js.keys o else (Js.keys o ++ [k])%list.
Proof.
  unfold Js.keys.
  induction o as [|[k0 v0] o IH]; cbn [Js.get Js.set map fst app].
  - rewrite decide_False; [done | apply not_elem_of_nil].
  - destruct (decide (k0 = k)) as [->|Hne]; cbn [Js.get Js.set Js.keys map fst].
    + rewrite decide_True; [done | apply list_elem_of_here].
    + rewrite IH. destruct (decide (k ∈ map fst o)) as [Hin|Hnin].
      * rewrite decide_True; [done | by apply list_elem_of_further].
      * rewrite decide_False; [done |].
        rewrite elem_of_cons. intros [?|?]; congruence.
Qed.

Lemma NoDup_keys_set o k v : NoDup (Js.keys o) → NoDup (Js.keys (Js.set k v o)).
Proof.
  intros Hnd. rewrite keys_set. case_decide; [done |].
  apply NoDup_app. split_and!; [done | | apply NoDup_singleton].
  intros x Hx ->%list_elem_of_singleton. done.
Qed.

Lemma get_elem_of o k v : Js.get o k = Some v → (k, v) ∈ o.
Proof.
  induction o as [|[k0 v0] o IH]; cbn [Js.get Js.set Js.keys map fst]; [done |].
  destruct (decide (k0 = k)) as [->|Hne].
  - intros [= ->]. apply list_elem_of_here.
  - intros ?. apply list_elem_of_further. auto.
Qed.

Lemma elem_of_get o k v : NoDup (Js.keys o) → (k, v) ∈ o → Js.get o k = Some v.
Proof.
  unfold Js.keys.
  induction o as [|[k0 v0] o IH]; cbn [Js.get Js.set map fst].
  - by intros _ ?%elem_of_nil.
  - intros [Hnin Hnd]%NoDup_cons [Heq|Hin]%elem_of_cons.
    + injection Heq as -> ->. by rewrite decide_True.
    + rewrite decide_False; [auto |].
      intros ->. apply Hnin.
      change (map fst o) with (fst <$> o).
      apply list_elem_of_fmap. by exists (k, v).
Qed.

(** Two objects with the same key order and the same lookups are equal. *)
Lemma object_ext o1 o2 :
  NoDup (Js.keys o1) →
  Js.keys o1 = Js.keys o2 →
  (∀ k, Js.get o1 k = Js.get o2 k) →
  o1 = o2.
Proof.
  unfold Js.keys.
  revert o2. induction o1 as [|[k1 v1] o1 IH]; intros [|[k2 v2] o2]; cbn [Js.get Js.set map fst];
    try done.
  intros [Hnin Hnd]%NoDup_cons [= <- Hkeys] Hget.
  pose proof (Hget k1) as H1. rewrite !decide_True in H1 by done.
  injection H1 as <-. f_equal. apply IH; [done | done |].
  intros k. specialize (Hget k).
  destruct (decide (k1 = k)) as [<-|Hne]; [| done].
  apply get_None_keys in Hnin as Hn1. rewrite Hn1. symmetry.
  apply get_None_keys. unfold Js.keys. by rewrite <- Hkeys.
Qed.

End JsObjects.

(** ** Sorting by insertion *)

Section Sorting.
Context {A : Type} (le : A → A → bool).

Lemma insert_by_perm a l : Js.insert_by le a l ≡ₚ a :: l.
Proof.
  induction l as [|b l IH]; cbn [Js.insert_by]; [done |].
  destruct (le a b); [done |].
  rewrite IH. apply Permutation_swap.
Qed.

Lemma sort_by_perm l : Js.sort_by le l ≡ₚ l.
Proof.
  unfold Js.sort_by. induction l as [|a l IH]; cbn [fold_right]; [done |].
  by rewrite insert_by_perm, IH.
Qed.

(** Elements that the comparison function keeps apart never overtake one
    another: seen through any filter whose members are mutually ordered by
    [le], sorting changes nothing. *)
Lemma insert_by_filter (p : A → bool) a l :
  (∀ b, In b l → p b = true → p a = true → le a b = true) →
  List.filter p (Js.insert_by le a l) = List.filter p (a :: l).
Proof.
  induction l as [|b l IH]; intros Hle; cbn [Js.insert_by]; [done |].
  destruct (le a b) eqn:Hab; [done |].
  cbn [List.filter]. rewrite IH by (intros; apply Hle; [by right | done | done]).
  cbn [List.filter]. destruct (p a) eqn:Hpa, (p b) eqn:Hpb; try done.
  rewrite Hle in Hab; [done | by left | done | done].
Qed.

Lemma sort_by_filter (p : A → bool) l :
  (∀ a b, p a = true → p b = true → le a b = true) →
  List.filter p (Js.sort_by le l) = List.filter p l.
Proof.
  intros Hle. unfold Js.sort_by.
  induction l as [|a l IH]; cbn [fold_right]; [done |].
  rewrite insert_by_filter by auto. cbn [List.filter]. by rewrite IH.
Qed.

Lemma insert_by_sorted (R : A → A → Prop) a l :
  (∀ x y, le x y = true → R x y) →
  (∀ x y, le x y = false → R y x) →
  Transitive R →
  StronglySorted R l → StronglySorted R (Js.insert_by le a l).
Proof.
  intros Ht Hf Htrans. induction 1 as [|b l Hs IH Hall]; cbn [Js.insert_by].
  - repeat constructor.
  - destruct (le a b) eqn:Hab.
    + constructor; [by constructor |].
      constructor; [by apply Ht |].
      eapply Forall_impl; [exact Hall |]. intros c Hc.
      etrans; [by apply Ht | done].
    + constructor; [done |].
      rewrite insert_by_perm. constructor; [by apply Hf | done].
Qed.

Lemma sort_by_sorted (R : A → A → Prop) l :
  (∀ x y, le x y = true → R x y) →
  (∀ x y, le x y = false → R y x) →
  Transitive R →
  StronglySorted R (Js.sort_by le l).
Proof.
  intros Ht Hf Htrans. unfold Js.sort_by.
  induction l as [|a l IH]; cbn [fold_right]; [constructor |].
  by apply insert_by_sorted.
Qed.

End Sorting.

Lemma filter_partition_perm {A} (p : A → bool) (l : list A) :
  (List.filter p l ++ List.filter (λ x, negb (p x)) l)%list ≡ₚ l.
Proof.
  induction l as [|a l IH]; cbn [List.filter]; [done |].
  destruct (p a); cbn [negb app].
  - by rewrite IH.
  - rewrite <- Permutation_middle. by rewrite IH.
Qed.

Lemma entries_perm {V} (o : Js.JsObject V) : Js.entries o ≡ₚ o.
Proof.
  unfold Js.entries. rewrite sort_by_perm. apply filter_partition_perm.
Qed.

Example entries_order :
  Js.entries [("b", 1); ("10", 2); ("2", 3); ("a", 4); ("02", 5)]
  = [("2", 3); ("10", 2); ("b", 1); ("a", 4); ("02", 5)].
Proof. reflexivity. Qed.

(** ** Balance calculator *)

(** *** The keys of the balances object *)

Lemma elem_of_keys_set {V} (o : Js.JsObject V) (k u : string) (v : V) :
  u ∈ Js.keys (Js.set k v o) ↔ u ∈ Js.keys o ∨ u = k.
Proof.
  rewrite keys_set. case_decide as Hk.
  - split; [by left | by intros [? | ->]].
  - by rewrite elem_of_app, list_elem_of_singleton.
Qed.

Lemma add_split_keys (b : Js.JsObject Js.JsValue) (s : Split) (u : string) :
  "__proto__" ∉ Js.keys b →
  u ∈ Js.keys (add_split b s)
  ↔ u ∈ Js.keys b ∨ (u = userId s ∧ u ≠ "__proto__").
Proof.
  intros Hown. unfold add_split. cbn zeta.
  destruct (Js.get b (userId s)) as [v|] eqn:Hget.
  - assert (Hk : userId s ∈ Js.keys b) by (by apply get_Some_keys).
    assert (Hne : userId s ≠ "__proto__") by (by intros Heq; rewrite Heq in Hk).
    destruct (Js.truthy v).
    + rewrite Hget, elem_of_keys_set. intuition (subst; (done || congruence)).
    + rewrite get_set_eq, !elem_of_keys_set. intuition (subst; (done || congruence)).
  - destruct (Js.inherited (userId s)) eqn:Hinh.
    + rewrite Hget. cbn [andb]. case_bool_decide as Hp; cbn [negb].
      * intuition (subst; (done || congruence)).
      * rewrite elem_of_keys_set. intuition (subst; (done || congruence)).
    + assert (Hne : userId s ≠ "__proto__") by (by intros Heq; rewrite Heq in Hinh).
      rewrite get_set_eq, !elem_of_keys_set. intuition (subst; (done || congruence)).
Qed.

Lemma add_split_NoDup (b : Js.JsObject Js.JsValue) (s : Split) :
  NoDup (Js.keys b) → NoDup (Js.keys (add_split b s)).
Proof.
  intros Hnd. unfold add_split. cbn zeta.
  set (b1 := match Js.get b (userId s) with
             | Some v => if Js.truthy v then b
                         else Js.set (userId s) (Js.Number (Js.Finite 0)) b
             | None => if Js.inherited (userId s) then b
                       else Js.set (userId s) (Js.Number (Js.Finite 0)) b
             end).
  assert (NoDup (Js.keys b1)).
  { subst b1. destruct (Js.get b (userId s)) as [v|];
      [destruct (Js.truthy v) | destruct (Js.inherited (userId s))];
      auto using NoDup_keys_set. }
  destruct (Js.get b1 (userId s)); [by apply NoDup_keys_set |].
  destruct (Js.inherited (userId s) && negb (bool_decide (userId s = "__proto__")));
    auto using NoDup_keys_set.
Qed.

Lemma fold_add_split_keys (l : list Split) (b : Js.JsObject Js.JsValue) (u : string) :
  "__proto__" ∉ Js.keys b →
  u ∈ Js.keys (fold_left add_split l b)
  ↔ u ∈ Js.keys b ∨ (u ∈ map userId l ∧ u ≠ "__proto__").
Proof.
  revert b. induction l as [|s l IH]; intros b Hown; cbn [fold_left map].
  - rewrite elem_of_nil. intuition (subst; (done || congruence)).
  - rewrite IH, add_split_keys, elem_of_cons by
      (try done; rewrite add_split_keys by done; intuition (subst; (done || congruence))).
    intuition (subst; (done || congruence)).
Qed.

Lemma fold_add_split_NoDup (l : list Split) (b : Js.JsObject Js.JsValue) :
  NoDup (Js.keys b) → NoDup (Js.keys (fold_left add_split l b)).
Proof.
  revert b. induction l as [|s l IH]; intros b Hnd; cbn [fold_left]; [done |].
  by apply IH, add_split_NoDup.
Qed.

(** *** The exact totals *)

Lemma add_split_exact_get (b : Js.JsObject Z) (s : Split) (u : string) :
  Js.get (add_split_exact b s) u
  = if decide (userId s = u)
    then Some (default 0 (Js.get b u) + split_amount s)
    else Js.get b u.
Proof.
  unfold add_split_exact. destruct (decide (userId s = u)) as [<-|Hne].
  - apply get_set_eq.
  - by apply get_set_ne.
Qed.

Lemma add_split_exact_NoDup (b : Js.JsObject Z) (s : Split) :
  NoDup (Js.keys b) → NoDup (Js.keys (add_split_exact b s)).
Proof. apply NoDup_keys_set. Qed.

Lemma split_total_cons (u : string) (s : Split) (l : list Split) :
  split_total u (s :: l)
  = (if decide (userId s = u) then split_amount s else 0) + split_total u l.
Proof.
  unfold split_total. cbn [List.filter].
  destruct (decide (userId s = u)) as [Heq|Hne].
  - by rewrite bool_decide_eq_true_2.
  - by rewrite bool_decide_eq_false_2.
Qed.

Lemma fold_add_split_exact_get (l : list Split) (b : Js.JsObject Z) (u : string) :
  Js.get (fold_left add_split_exact l b) u
  = if decide (u ∈ map userId l)
    then Some (default 0 (Js.get b u) + split_total u l)
    else Js.get b u.
Proof.
  revert b. induction l as [|s l IH]; intros b; cbn [fold_left map].
  - rewrite decide_False; [done | apply not_elem_of_nil].
  - rewrite IH, add_split_exact_get, split_total_cons.
    destruct (decide (userId s = u)) as [Heq|Hne].
    + rewrite (decide_True (P := u ∈ userId s :: map userId l))
        by (rewrite Heq; apply list_elem_of_here).
      case_decide; cbn [default from_option id]; apply (f_equal Some); [lia |].
      assert (split_total u l = 0) as ->; [| lia].
      unfold split_total.
      assert (List.filter (λ s0, bool_decide (userId s0 = u)) l = []) as ->; [| done].
      clear -H. induction l as [|s0 l IHl]; cbn [List.filter]; [done |].
      cbn [map] in H. apply not_elem_of_cons in H as [Hne Hnin].
      rewrite bool_decide_eq_false_2 by congruence. auto.
    + destruct (decide (u ∈ map userId l)) as [Hin|Hnin].
      * rewrite decide_True by (by apply list_elem_of_further).
        apply (f_equal Some). lia.
      * rewrite decide_False; [done |].
        rewrite elem_of_cons. intros [?|?]; congruence.
Qed.

Lemma fold_add_split_exact_NoDup (l : list Split) (b : Js.JsObject Z) :
  NoDup (Js.keys b) → NoDup (Js.keys (fold_left add_split_exact l b)).
Proof.
  revert b. induction l as [|s l IH]; intros b Hnd; cbn [fold_left]; [done |].
  by apply IH, add_split_exact_NoDup.
Qed.

Lemma exact_totals_get (l : list Split) (u : string) :
  Js.get (exact_totals l) u
  = if decide (u ∈ map userId l) then Some (split_total u l) else None.
Proof. unfold exact_totals. rewrite fold_add_split_exact_get. by case_decide. Qed.

Lemma exact_totals_NoDup (l : list Split) : NoDup (Js.keys (exact_totals l)).
Proof. apply fold_add_split_exact_NoDup. constructor. Qed.

(** *** The totals of the code are the exact ones on plain keys and within
    the range of exact doubles *)

Lemma round_to_double_exact (z : Z) :
  Z.abs z <= 2 ^ 53 → Js.round_to_double z = z.
Proof.
  intros Hz. unfold Js.round_to_double.
  destruct (Z.ltb_spec (Z.abs z) (2 ^ 53)) as [|Hge]; [done |].
  assert (z = 2 ^ 53 ∨ z = - 2 ^ 53) as [-> | ->] by lia; reflexivity.
Qed.

Lemma add_number_exact (x b : Z) :
  Z.abs (x + b) <= 2 ^ 53 → Js.add_number (Js.Finite x) b = Js.Finite (x + b).
Proof.
  intros Hz. unfold Js.add_number. rewrite round_to_double_exact by done.
  assert ((Z.abs (x + b) <? 2 ^ 1024) = true) as ->; [| done].
  apply Z.ltb_lt. eapply Z.le_lt_trans; [exact Hz |].
  apply Z.pow_lt_mono_r; lia.
Qed.

Lemma as_numbers_get (b : Js.JsObject Z) (k : string) :
  Js.get (as_numbers b) k = (λ z, Js.Number (Js.Finite z)) <$> Js.get b k.
Proof.
  unfold as_numbers.
  induction b as [|[k0 v0] b IH]; cbn [map Js.get fst snd]; [done |].
  by case_decide.
Qed.

Lemma as_numbers_set (b : Js.JsObject Z) (k : string) (v : Z) :
  Js.set k (Js.Number (Js.Finite v)) (as_numbers b) = as_numbers (Js.set k v b).
Proof.
  unfold as_numbers.
  induction b as [|[k0 v0] b IH]; cbn [map Js.set fst snd]; [done |].
  case_decide; cbn [map fst snd]; [done | by rewrite IH].
Qed.

Lemma as_numbers_keys (b : Js.JsObject Z) : Js.keys (as_numbers b) = Js.keys b.
Proof. unfold Js.keys, as_numbers. rewrite map_map. by apply map_ext. Qed.

Lemma set_set {V} (k : string) (v w : V) (o : Js.JsObject V) :
  Js.set k v (Js.set k w o) = Js.set k v o.
Proof.
  induction o as [|[k0 v0] o IH]; cbn [Js.set].
  - by rewrite decide_True.
  - case_decide; cbn [Js.set].
    + by rewrite decide_True.
    + rewrite decide_False by done. by rewrite IH.
Qed.

Lemma add_split_refines (b : Js.JsObject Z) (s : Split) (B : Z) :
  Js.inherited (userId s) = false →
  totals_within B b →
  0 <= B →
  B + Z.abs (split_amount s) <= 2 ^ 53 →
  add_split (as_numbers b) s = as_numbers (add_split_exact b s)
  ∧ totals_within (B + Z.abs (split_amount s)) (add_split_exact b s).
Proof.
  intros Hplain Hb H0 HB. split.
  - unfold add_split, add_split_exact. cbn zeta.
    rewrite as_numbers_get, Hplain.
    destruct (Js.get b (userId s)) as [v|] eqn:Hget;
      cbn [fmap option_fmap option_map Js.truthy default from_option id].
    + specialize (Hb _ _ Hget).
      unfold Js.truthy_number. destruct (Z.eqb_spec v 0) as [->|Hv]; cbn [negb].
      * rewrite get_set_eq. cbn [Js.plus].
        rewrite add_number_exact by lia. by rewrite set_set, as_numbers_set.
      * rewrite as_numbers_get, Hget.
        cbn [fmap option_fmap option_map Js.plus].
        rewrite add_number_exact by lia. by rewrite as_numbers_set.
    + rewrite get_set_eq. cbn [Js.plus].
      rewrite add_number_exact by lia. by rewrite set_set, as_numbers_set.
  - intros k v. rewrite add_split_exact_get. case_decide as Hk.
    + intros [= <-]. destruct (Js.get b k) as [w|] eqn:Hget;
        cbn [default from_option id]; [specialize (Hb _ _ Hget) |]; lia.
    + intros Hget. specialize (Hb _ _ Hget). lia.
Qed.

Lemma magnitude_cons (s : Split) (l : list Split) :
  magnitude (s :: l) = Z.abs (split_amount s) + magnitude l.
Proof. reflexivity. Qed.

Lemma magnitude_nonneg (l : list Split) : 0 <= magnitude l.
Proof. induction l as [|s l IH]; [done | rewrite magnitude_cons; lia]. Qed.

Lemma fold_add_split_refines (l : list Split) (b : Js.JsObject Z) (B : Z) :
  plain_userIds l →
  totals_within B b →
  0 <= B →
  B + magnitude l <= 2 ^ 53 →
  fold_left add_split l (as_numbers b) = as_numbers (fold_left add_split_exact l b).
Proof.
  revert b B. induction l as [|s l IH]; intros b B Hplain Hb H0 HB;
    cbn [fold_left]; [done |].
  rewrite magnitude_cons in HB. pose proof (magnitude_nonneg l).
  destruct (add_split_refines b s B) as [-> Hb']; [| done | done | lia |].
  { apply Hplain, list_elem_of_here. }
  apply (IH _ (B + Z.abs (split_amount s))); [| done | lia | lia].
  intros s' Hs'. by apply Hplain, list_elem_of_further.
Qed.

Lemma fold_transactions_flat (txs : list Transaction) (b : Js.JsObject Js.JsValue) :
  fold_left (λ b t, fold_left add_split (splits t) b) txs b
  = fold_left add_split (flat_map splits txs) b.
Proof.
  revert b. induction txs as [|t txs IH]; intros b; cbn [fold_left flat_map];
    [done |].
  by rewrite fold_left_app, IH.
Qed.

Lemma insert_by_index_numbers (e : string * Z) (l : Js.JsObject Z) :
  Js.insert_by Js.index_le (fst e, Js.Number (Js.Finite (snd e))) (as_numbers l)
  = as_numbers (Js.insert_by Js.index_le e l).
Proof.
  unfold as_numbers.
  induction l as [|e' l IH]; cbn [map Js.insert_by]; [done |].
  change (Js.index_le (fst e, Js.Number (Js.Finite (snd e)))
            (fst e', Js.Number (Js.Finite (snd e'))))
    with (Js.index_le e e').
  destruct (Js.index_le e e'); cbn [map]; [done | by rewrite IH].
Qed.

Lemma entries_as_numbers (b : Js.JsObject Z) :
  Js.entries (as_numbers b) = as_numbers (Js.entries b).
Proof.
  unfold Js.entries.
  assert (Hf : ∀ p : string → bool,
             List.filter (λ e : string * Js.JsValue, p (fst e)) (as_numbers b)
             = as_numbers (List.filter (λ e : string * Z, p (fst e)) b)).
  { intros p. unfold as_numbers.
    induction b as [|e b IH]; cbn [map List.filter fst]; [done |].
    destruct (p (fst e)); cbn [map]; by rewrite IH. }
  pose proof (Hf (λ k, match Js.array_index k with Some _ => true | None => false end))
    as Hidx.
  pose proof (Hf (λ k, negb match Js.array_index k with Some _ => true | None => false end))
    as Hrest.
  unfold Js.is_index. rewrite Hidx, Hrest.
  unfold as_numbers at 3. rewrite map_app. f_equal.
  generalize (List.filter
                (λ e : string * Z,
                   match Js.array_index (fst e) with Some _ => true | None => false end) b).
  intros l. unfold Js.sort_by.
  induction l as [|e l IH]; [done |].
  change (as_numbers (e :: l))
    with ((fst e, Js.Number (Js.Finite (snd e))) :: as_numbers l).
  cbn [fold_right]. rewrite IH. apply insert_by_index_numbers.
Qed.

(** On plain keys and within the exact range the balances are the exact
    totals, listed in the order of [Object.entries]. *)
Lemma calculateBalances_exact (txs : list Transaction) (f : string) :
  plain_userIds (fund_splits txs f) →
  exact_range (fund_splits txs f) →
  calculateBalances txs f
  = map (λ e, mkBalance (fst e) (Js.Number (Js.Finite (snd e))))
      (Js.entries (exact_totals (fund_splits txs f))).
Proof.
  intros Hplain Hrange. unfold calculateBalances. rewrite fold_transactions_flat.
  fold (fund_splits txs f).
  change (@nil (string * Js.JsValue)) with (as_numbers []).
  rewrite (fold_add_split_refines _ [] 0);
    [| done | done | done | by unfold exact_range in Hrange].
  fold (exact_totals (fund_splits txs f)).
  rewrite entries_as_numbers. unfold as_numbers. rewrite map_map. by apply map_ext.
Qed.

Lemma elem_of_fund_splits_users (txs : list Transaction) (f u : string) :
  u ∈ map userId (fund_splits txs f)
  ↔ ∃ t s, t ∈ txs ∧ fundId t = f ∧ s ∈ splits t ∧ userId s = u.
Proof.
  unfold fund_splits. rewrite list_elem_of_In, in_map_iff. split.
  - intros (s & Hu & Hs). apply in_flat_map in Hs as (t & Ht & Hs).
    apply filter_In in Ht as [Ht Hf]. apply bool_decide_eq_true in Hf.
    exists t, s. by rewrite !list_elem_of_In.
  - intros (t & s & Ht & Hf & Hs & Hu). exists s. split; [done |].
    apply in_flat_map. exists t. rewrite filter_In, <- !list_elem_of_In.
    split_and!; [done | by apply bool_decide_eq_true | done].
Qed.

(** C1 (amended): [calculateBalances] keeps the transactions of the fund
    and adds every split amount to the running total of its user.  The result
    never lists a user twice, and it lists exactly the users of the splits of
    the fund, except a user named [__proto__], who gets no entry.  When no
    split of the fund is filed under the name of a member of
    [Object.prototype] and the magnitudes of the split amounts add up to at
    most 2^53, every entry carries the sum of that user's split amounts (a
    user whose amounts cancel keeps an entry with amount zero, a user of no
    split has none); on the transaction list of the scenario the result is
    [A: -50, B: 50]. *)
Theorem calculateBalances_correct (txs : list Transaction) (f : string) :
  let result := calculateBalances txs f in
  NoDup (map balance_userId result)
  ∧ (∀ u, u ∈ map balance_userId result
          ↔ (∃ t s, t ∈ txs ∧ fundId t = f ∧ s ∈ splits t ∧ userId s = u)
            ∧ u ≠ "__proto__")
  ∧ (plain_userIds (fund_splits txs f) →
     exact_range (fund_splits txs f) →
     ∀ e, e ∈ result →
          balance_amount e
          = Js.Number (Js.Finite (split_total (balance_userId e) (fund_splits txs f))))
  ∧ calculateBalances
      [mkTransaction "t1" "f1" "" 0 ""
         [mkSplit "A" (-50); mkSplit "B" 50] 0 0] "f1"
    = [mkBalance "A" (Js.Number (Js.Finite (-50)));
       mkBalance "B" (Js.Number (Js.Finite 50))].
Proof.
  cbn zeta. split_and!.
  - unfold calculateBalances. rewrite fold_transactions_flat, map_map.
    cbn [balance_userId].
    rewrite (Permutation_map fst (entries_perm _)).
    apply (fold_add_split_NoDup _ []). constructor.
  - intros u. unfold calculateBalances. rewrite fold_transactions_flat, map_map.
    cbn [balance_userId]. fold (fund_splits txs f).
    rewrite (Permutation_map fst (entries_perm _)).
    rewrite <- elem_of_fund_splits_users.
    change (map fst ?o) with (Js.keys o).
    rewrite (fold_add_split_keys _ []) by apply not_elem_of_nil.
    cbn [Js.keys map]. rewrite elem_of_nil. tauto.
  - intros Hplain Hrange. rewrite calculateBalances_exact by done.
    set (b := exact_totals (fund_splits txs f)).
    pose proof (exact_totals_NoDup (fund_splits txs f)) as Hnd. fold b in Hnd.
    pose proof (exact_totals_get (fund_splits txs f)) as Hget. fold b in Hget.
    intros e He. apply list_elem_of_In, in_map_iff in He as ([k v] & <- & Hin).
    cbn [balance_amount balance_userId fst snd].
    apply list_elem_of_In in Hin. rewrite entries_perm in Hin.
    apply elem_of_get in Hin; [| done]. rewrite Hget in Hin.
    case_decide; congruence.
  - reflexivity.
Qed.

Lemma calculateBalances_correct_witness :
  let txs := [mkTransaction "t1" "f1" "Lunch" 90 "A"
                [mkSplit "A" 60; mkSplit "B" (-30); mkSplit "C" (-30)] 1 1;
              mkTransaction "t2" "f2" "Rent" 500 "D" [mkSplit "D" 500] 2 2] in
  plain_userIds (fund_splits txs "f1")
  ∧ exact_range (fund_splits txs "f1")
  ∧ calculateBalances txs "f1"
    = [mkBalance "A" (Js.Number (Js.Finite 60));
       mkBalance "B" (Js.Number (Js.Finite (-30)));
       mkBalance "C" (Js.Number (Js.Finite (-30)))]
  ∧ ∀ e, e ∈ calculateBalances txs "f1" →
         balance_amount e
         = Js.Number (Js.Finite (split_total (balance_userId e) (fund_splits txs "f1"))).
Proof.
  cbn zeta.
  assert (Hplain : plain_userIds
            (fund_splits
               [mkTransaction "t1" "f1" "Lunch" 90 "A"
                  [mkSplit "A" 60; mkSplit "B" (-30); mkSplit "C" (-30)] 1 1;
                mkTransaction "t2" "f2" "Rent" 500 "D" [mkSplit "D" 500] 2 2] "f1")).
  { intros s Hs. apply list_elem_of_In in Hs.
    repeat (destruct Hs as [<- | Hs]; [reflexivity |]). destruct Hs. }
  assert (Hrange : exact_range
            (fund_splits
               [mkTransaction "t1" "f1" "Lunch" 90 "A"
                  [mkSplit "A" 60; mkSplit "B" (-30); mkSplit "C" (-30)] 1 1;
                mkTransaction "t2" "f2" "Rent" 500 "D" [mkSplit "D" 500] 2 2] "f1")).
  { by vm_compute. }
  split_and!; [done | done | reflexivity |].
  apply (proj1 (proj2 (proj2 (calculateBalances_correct _ "f1"))) Hplain Hrange).
Defined.

(** C1 as the specification words it fails on three inputs.  A user named
    [__proto__] appears in a split and gets no entry; the entry of a user
    named [constructor] does not start from zero and carries a text instead
    of a number; and the running total of 2^53 and 1 is 2^53, not their
    sum. *)
Lemma calculateBalances_counterexample :
  let tx l := mkTransaction "t1" "f1" "" 0 "" l 0 0 in
  let result1 := calculateBalances [tx [mkSplit "__proto__" 50; mkSplit "B" (-50)]] "f1" in
  let result2 := calculateBalances [tx [mkSplit "constructor" 50; mkSplit "B" (-50)]] "f1" in
  let splits3 := [mkSplit "A" (2 ^ 53); mkSplit "A" 1;
                  mkSplit "B" (- 2 ^ 53); mkSplit "B" (-1)] in
  let result3 := calculateBalances [tx splits3] "f1" in
  (result1 = [mkBalance "B" (Js.Number (Js.Finite (-50)))]
   ∧ "__proto__" ∈ map userId [mkSplit "__proto__" 50; mkSplit "B" (-50)]
   ∧ ¬ ("__proto__" ∈ map balance_userId result1))
  ∧ (result2 = [mkBalance "constructor" (Js.Text "constructor" [50]);
                mkBalance "B" (Js.Number (Js.Finite (-50)))]
     ∧ ¬ (∀ e, e ∈ result2 →
               balance_amount e
               = Js.Number (Js.Finite (split_total (balance_userId e)
                                         [mkSplit "constructor" 50; mkSplit "B" (-50)]))))
  ∧ (result3 = [mkBalance "A" (Js.Number (Js.Finite (2 ^ 53)));
                mkBalance "B" (Js.Number (Js.Finite (- 2 ^ 53)))]
     ∧ split_total "A" splits3 = 2 ^ 53 + 1
     ∧ ¬ (∀ e, e ∈ result3 →
               balance_amount e
               = Js.Number (Js.Finite (split_total (balance_userId e) splits3)))).
Proof.
  cbn zeta. split_and!.
  - reflexivity.
  - apply list_elem_of_here.
  - intros Hin. apply list_elem_of_In in Hin. vm_compute in Hin.
    destruct Hin as [Hin | []]. discriminate Hin.
  - reflexivity.
  - intros H. specialize (H _ (list_elem_of_here _ _)). discriminate H.
  - reflexivity.
  - reflexivity.
  - intros H. specialize (H _ (list_elem_of_here _ _)).
    vm_compute in H. discriminate H.
Qed.

(** ** Split calculator *)

Lemma sum_splits_cons (s : Split) (l : list Split) :
  sum_splits (s :: l) = split_amount s + sum_splits l.
Proof. reflexivity. Qed.

Lemma sum_absorb_first (r : Z) (l : list Split) :
  l ≠ [] → sum_splits (absorb_first r l) = sum_splits l + r.
Proof.
  destruct l as [|s l]; [done |]. intros _. cbn [absorb_first].
  rewrite !sum_splits_cons. cbn [split_amount]. lia.
Qed.

Lemma sum_absorb_at (u : string) (r : Z) (l l' : list Split) :
  absorb_at u r l = Some l' → sum_splits l' = sum_splits l + r.
Proof.
  revert l'. induction l as [|s l IH]; intros l'; cbn [absorb_at]; [done |].
  case_decide.
  - intros [= <-]. rewrite !sum_splits_cons. cbn [split_amount]. lia.
  - destruct (absorb_at u r l) as [l0|]; cbn [option_map]; [| done].
    intros [= <-]. rewrite !sum_splits_cons, (IH l0) by done. lia.
Qed.

Lemma sum_equal_shares (share : Z) (ps : list Participant) :
  sum_splits (map (λ p, mkSplit (participant_id p) share) ps)
  = share * Z.of_nat (length ps).
Proof.
  induction ps as [|p ps IH]; [cbn; lia |].
  cbn [map]. rewrite sum_splits_cons, IH. cbn [split_amount length]. lia.
Qed.

(** C2: for a draft with at least one participant the splits computed in the
    EQUAL and PERCENTAGE modes add up to the amount of the transaction; in
    the EQUAL mode every participant receives the integer quotient of the
    amount by the number of participants and the first one receives the
    remainder on top, so that 100 over three participants is 34, 33, 33. *)
Theorem calculateTransactionSplits_sum (d : TransactionDraft) :
  participants d ≠ [] →
  (splitMode d = EQUAL ∨ splitMode d = PERCENTAGE →
   sum_splits (calculateTransactionSplits d) = draft_amount d)
  ∧ (splitMode d = EQUAL →
     ∃ p rest, participants d = p :: rest ∧
       let n := Z.of_nat (length (participants d)) in
       calculateTransactionSplits d
       = mkSplit (participant_id p) (draft_amount d / n + draft_amount d mod n)
           :: map (λ q, mkSplit (participant_id q) (draft_amount d / n)) rest)
  ∧ calculateTransactionSplits
      (mkDraft 100 "u1" EQUAL
         [mkParticipant "u1" 0; mkParticipant "u2" 0; mkParticipant "u3" 0] [])
    = [mkSplit "u1" 34; mkSplit "u2" 33; mkSplit "u3" 33].
Proof.
  intros Hne. split_and!.
  - intros [Hm|Hm]; unfold calculateTransactionSplits; rewrite Hm.
    + rewrite sum_absorb_first, sum_equal_shares; [lia |].
      by destruct (participants d).
    + set (shares := map _ (participants d)).
      destruct (absorb_at _ _ shares) as [l|] eqn:Ha.
      * apply sum_absorb_at in Ha. lia.
      * rewrite sum_absorb_first; [lia |].
        subst shares. by destruct (participants d).
  - intros Hm. unfold calculateTransactionSplits. rewrite Hm.
    destruct (participants d) as [|p rest] eqn:Hp; [done |].
    exists p, rest. split; [done |]. cbn zeta. cbn [map absorb_first userId split_amount].
    do 2 f_equal. rewrite Z.mod_eq by (cbn [length]; lia). lia.
  - reflexivity.
Qed.

Lemma calculateTransactionSplits_sum_witness :
  let d := mkDraft 100 "u2" PERCENTAGE
             [mkParticipant "u1" 33; mkParticipant "u2" 33; mkParticipant "u3" 33]
             [] in
  participants d ≠ [] ∧ sum_splits (calculateTransactionSplits d) = 100.
Proof.
  cbn zeta. split; [done |].
  refine (proj1 (calculateTransactionSplits_sum _ _) _); [done | by right].
Defined.

(** ** User cache: lookup *)

Lemma placeholder_named (id : string) : displayName (placeholderUser id) ≠ "".
Proof. done. Qed.

Lemma getUserById_truthy (s : AppState) (id : string) :
  id ≠ "" →
  getUserById s (Some id)
  = match currentUser s with
    | Some cu => if decide (user_id cu = id) then cu else cachedOrPlaceholder s id
    | None => cachedOrPlaceholder s id
    end.
Proof. intros Hid. unfold getUserById. by destruct id. Qed.

(** C3 (amended): [getUserById] is a total function of the state and the
    id, it issues no remote call and cannot reject.  For a non-empty id it
    returns the current user when the id is the current user's, otherwise the
    cached profile when the cache has one, otherwise, for an id that names no
    member of [Object.prototype], the placeholder made of the id, the name
    "User " followed by the first four characters of the id, and empty email
    and photo.  For an id that names no member of [Object.prototype] the name
    of the result is non-empty whenever the names of the current user and of
    the cached profiles are; the name of a placeholder always is. *)
Theorem getUserById_nonempty_id (s : AppState) (id : string) :
  id ≠ "" →
  (∀ cu, currentUser s = Some cu → user_id cu = id → getUserById s (Some id) = cu)
  ∧ (∀ u, (∀ cu, currentUser s = Some cu → user_id cu ≠ id) →
          users s !! id = Some u → getUserById s (Some id) = u)
  ∧ ((∀ cu, currentUser s = Some cu → user_id cu ≠ id) →
     users s !! id = None →
     Js.inherited id = false →
     getUserById s (Some id)
     = mkUser id (String.append "User " (substring 0 4 id)) "" "" None)
  ∧ ((∀ cu, currentUser s = Some cu → displayName cu ≠ "") →
     (∀ k u, users s !! k = Some u → displayName u ≠ "") →
     Js.inherited id = false →
     displayName (getUserById s (Some id)) ≠ "").
Proof.
  intros Hid. rewrite getUserById_truthy by done. unfold cachedOrPlaceholder.
  split_and!.
  - intros cu -> Hcu. by rewrite decide_True.
  - intros u Hcur ->. destruct (currentUser s) as [cu|]; [| done].
    rewrite decide_False; [done | by apply Hcur].
  - intros Hcur -> _. destruct (currentUser s) as [cu|]; [| done].
    rewrite decide_False; [done | by apply Hcur].
  - intros Hcur Hcache _.
    assert (Hc : displayName (match users s !! id with
                              | Some u => u
                              | None => placeholderUser id
                              end) ≠ "").
    { destruct (users s !! id) as [u|] eqn:Hu; [by eapply Hcache | done]. }
    destruct (currentUser s) as [cu|]; [| done].
    case_decide; [by apply Hcur | done].
Qed.

Lemma getUserById_nonempty_id_witness :
  let s := setUsers {["bob99" := mkUser "bob99" "Bob" "b@x.org" "" None]}
             (initialState NoSnapshot) in
  getUserById s (Some "bob99") = mkUser "bob99" "Bob" "b@x.org" "" None
  ∧ getUserById s (Some "carol7") = mkUser "carol7" "User caro" "" "" None.
Proof.
  cbn zeta. split.
  - refine (proj1 (proj2 (getUserById_nonempty_id _ "bob99" _)) _ _ _);
      [done | done | vm_compute; reflexivity].
  - refine (proj1 (proj2 (proj2 (getUserById_nonempty_id _ "carol7" _))) _ _ _);
      [done | done | vm_compute; reflexivity | reflexivity].
Defined.

(** C3 as the specification words it fails twice: for the empty id no
    placeholder is built, and a cached profile with an empty name is returned
    as it is. *)
Lemma getUserById_counterexample :
  (let s := initialState NoSnapshot in
   currentUser s = None ∧ users s !! "" = None
   ∧ getUserById s (Some "") ≠ mkUser "" "User " "" "" None)
  ∧ (let s := setUsers {["u1" := mkUser "u1" "" "" "" None]}
                (initialState NoSnapshot) in
     displayName (getUserById s (Some "u1")) = "").
Proof. split; [split_and!; [done | done | by vm_compute] | by vm_compute]. Qed.

(** C10: for an empty id, and for [null] or [undefined] in its place,
    [getUserById] does not build the "User xxxx" placeholder: it returns the
    fixed user with id "unknown" and name "Unknown User", whose name is not
    empty. *)
Theorem getUserById_falsy_id (s : AppState) (id : option string) :
  falsy_id id = true →
  getUserById s id = mkUser "unknown" "Unknown User" "" "" None
  ∧ getUserById s id ≠ placeholderUser (default "" id)
  ∧ displayName (getUserById s id) ≠ "".
Proof.
  intros Hf. assert (getUserById s id = unknownUser) as ->.
  { destruct id as [id|]; [| done]. cbn [falsy_id] in Hf.
    unfold getUserById. by rewrite Hf. }
  split_and!; [done | | done].
  destruct id as [[|c id]|]; done.
Qed.

Lemma getUserById_falsy_id_witness :
  getUserById (initialState NoSnapshot) (Some "")
  = mkUser "unknown" "Unknown User" "" "" None.
Proof.
  refine (proj1 (getUserById_falsy_id (initialState NoSnapshot) (Some "") _)).
  reflexivity.
Defined.

(** ** Session manager *)

(** Unfolds the monad, so that a computation on a given state reduces to
    its outcome and final state. *)
Ltac run_app :=
  cbv [bind ret throw act write_funds await try_catch try_finally with_render
       emit setCurrentUser setFunds setTransactions setSelectedFund
       setIsAuthLoading setAuthInitialized setIsLoading setUsers
       setHasInitiallyLoaded setSessionStorage
       currentUser funds transactions selectedFund isAuthLoading
       authInitialized isLoading users hasInitiallyLoaded sessionStorage trace
       seen_currentUser seen_funds hasRestoredFromCache uid fst snd].

(** C4: when the listener receives the signed-out event, whatever the
    state and whatever the listener closed over, the event is handled without
    a rejection and afterwards there is no current user, the funds and the
    transactions are empty lists, the user cache is empty and the stored
    snapshot is gone. *)
Theorem signed_out_clears_state (cl : AuthClosure) (synced : Outcome User)
    (fetchedFunds : Outcome (list Fund)) (s : AppState) :
  let result := onAuthStateChange cl None synced fetchedFunds s in
  fst result = Resolved tt
  ∧ currentUser (snd result) = None
  ∧ funds (snd result) = []
  ∧ transactions (snd result) = []
  ∧ users (snd result) = ∅
  ∧ sessionStorage (snd result) = NoSnapshot.
Proof. by split_and!. Qed.

(** The listener is created by the first render, in which [currentUser]
    is still [null]: its shortcut for an already loaded user never applies. *)
Lemma restored_closure_never_matches (storage : Snapshot)
    (cachedFunds : Outcome (list Fund)) (firebaseUser : FirebaseUser) :
  ∃ cl s, restoreSession cachedFunds (initialState storage) = (Resolved cl, s)
          ∧ seen_currentUser cl = None
          ∧ seen_funds cl = []
          ∧ hasRestoredFromCache cl
            = match storage with StoredUser _ => true | _ => false end
          ∧ already_loaded cl firebaseUser = false.
Proof.
  unfold restoreSession, initialState, loadUserFundsOf, already_loaded. run_app.
  destruct storage as [|u|];
    [by eexists _, _; split_and! | | by eexists _, _; split_and!].
  destruct (Js.truthy_string (user_id u)); cbn [negb];
    [destruct cachedFunds |]; by eexists _, _; split_and!.
Qed.

(** What the shortcut does for a closure that passes its guard: the sync is
    called to verify the user, and neither [currentUser] nor the snapshot nor
    the funds change. *)
Lemma verified_user_is_kept (cl : AuthClosure) (firebaseUser : FirebaseUser)
    (synced : Outcome User) (fetchedFunds : Outcome (list Fund)) (s : AppState) :
  already_loaded cl firebaseUser = true →
  let result := onAuthStateChange cl (Some firebaseUser) synced fetchedFunds s in
  fst result = Resolved tt
  ∧ currentUser (snd result) = currentUser s
  ∧ sessionStorage (snd result) = sessionStorage s
  ∧ funds (snd result) = funds s
  ∧ trace (snd result) = (trace s ++ [Remote (CallSyncUser (uid firebaseUser))])%list.
Proof.
  intros Hal. cbn zeta. unfold onAuthStateChange. rewrite Hal. run_app.
  by destruct synced.
Qed.

(** C8: the provider restores a cached user and then receives the
    signed-in event for the same uid.  The listener takes the full path: the
    profile returned by the sync replaces [currentUser] and overwrites the
    stored snapshot.  The only remote calls are the background fund load of
    the restore and the sync: the event starts no fund reload. *)
Theorem same_identity_event_replaces_user (cached fullUser : User)
    (name mail photo : option string)
    (cachedFunds fetchedFunds : Outcome (list Fund)) :
  let firebaseUser := mkFirebaseUser (user_id cached) name mail photo in
  let result :=
    sessionAfterEvent (StoredUser cached) cachedFunds
      (Some firebaseUser) (Resolved fullUser) fetchedFunds in
  fst result = Resolved tt
  ∧ currentUser (snd result) = Some fullUser
  ∧ sessionStorage (snd result) = StoredUser fullUser
  ∧ remote_calls (trace (snd result))
    = ((if Js.truthy_string (user_id cached)
        then [CallGetUserFunds (user_id cached)] else [])
       ++ [CallSyncUser (user_id cached)])%list.
Proof.
  cbn zeta. unfold sessionAfterEvent, restoreSession, initialState, onAuthStateChange,
    loadUserFundsOf, already_loaded. run_app.
  destruct (Js.truthy_string (user_id cached)); cbn [negb];
    [destruct cachedFunds |]; by split_and!.
Qed.

Example same_identity_event_scenario :
  let cached := mkUser "u1" "Old name" "a@x.org" "" None in
  let fullUser := mkUser "u1" "New name" "a@x.org" "" (Some "VCB 0123") in
  let result :=
    sessionAfterEvent (StoredUser cached) (Resolved [])
      (Some (mkFirebaseUser "u1" None None None)) (Resolved fullUser) (Resolved []) in
  currentUser (snd result) = Some fullUser
  ∧ currentUser (snd result) ≠ Some cached
  ∧ sessionStorage (snd result) = StoredUser fullUser.
Proof. by vm_compute. Qed.

(** ** Fund store: deletion *)

(** C6: with a signed-in user, [deleteFund] first issues the remote
    deletion and touches the funds only after it has succeeded.  When the
    call fails the promise resolves with [false] (it does not reject), the
    funds and the selection are as before, the fund list has not been written
    at all, and the failure is shown as an error notification.  When it
    succeeds the promise resolves with [true], the fund list is written once,
    after the remote call, and the funds are the former ones without those of
    the given id. *)
Theorem deleteFund_remote_first (s : AppState) (fundId' : string) :
  currentUser s ≠ None →
  (∀ e, let result := deleteFund fundId' (Rejected e) s in
        fst result = Resolved false
        ∧ funds (snd result) = funds s
        ∧ selectedFund (snd result) = selectedFund s
        ∧ trace (snd result)
          = (trace s ++ [Remote (CallDeleteFund fundId');
                         ToastError (errorMessage e "Không thể xóa quỹ")])%list)
  ∧ (let result := deleteFund fundId' (Resolved tt) s in
     fst result = Resolved true
     ∧ funds (snd result)
       = List.filter (λ f, negb (bool_decide (fund_id f = fundId'))) (funds s)
     ∧ (∀ f, f ∈ funds (snd result) ↔ f ∈ funds s ∧ fund_id f ≠ fundId')
     ∧ trace (snd result)
       = (trace s ++ [Remote (CallDeleteFund fundId');
                      FundsWritten;
                      ToastSuccess "Quỹ đã được xóa thành công!"])%list).
Proof.
  intros Hcu. unfold deleteFund, with_render.
  destruct (currentUser s) as [cu|] eqn:Hs; [clear Hcu | done].
  split.
  - intros e. run_app. cbn [app]. rewrite <- app_assoc. by split_and!.
  - run_app. destruct (selected_is s fundId');
      (split_and!; [done | done | | by rewrite <- !app_assoc]);
      intros f; rewrite list_elem_of_In, filter_In, <- list_elem_of_In,
        negb_true_iff, bool_decide_eq_false; done.
Qed.

Lemma deleteFund_remote_first_witness :
  let s := setFunds [mkFund "f1" "Trip" "" ["A"; "B"] 0 "A"]
             (setCurrentUser (Some (mkUser "A" "An" "" "" None))
                (initialState NoSnapshot)) in
  let result := deleteFund "f1" (Rejected (ErrorObject "offline")) s in
  fst result = Resolved false
  ∧ funds (snd result) = [mkFund "f1" "Trip" "" ["A"; "B"] 0 "A"].
Proof.
  cbn zeta.
  refine (let H := proj1 (deleteFund_remote_first _ "f1" _) (ErrorObject "offline")
          in conj (proj1 H) (proj1 (proj2 H))).
  discriminate.
Defined.

(** ** Fund store: loading *)

Lemma setAll_snoc (l : list Fund) (f : Fund) (m : Js.JsObject Fund) :
  setAll (l ++ [f])%list m = Js.set (fund_id f) f (setAll l m).
Proof. unfold setAll. by rewrite fold_left_app. Qed.

Lemma latest_snoc (l : list Fund) (f : Fund) (k : string) :
  latest (l ++ [f])%list k = if decide (fund_id f = k) then Some f else latest l k.
Proof.
  unfold latest. rewrite rev_unit. cbn [find].
  case_decide; [by rewrite bool_decide_eq_true_2 | by rewrite bool_decide_eq_false_2].
Qed.

Lemma latest_app (l1 l2 : list Fund) (k : string) :
  latest (l1 ++ l2)%list k
  = match latest l2 k with Some f => Some f | None => latest l1 k end.
Proof.
  induction l2 as [|f l2 IH] using rev_ind; [by rewrite app_nil_r |].
  rewrite app_assoc, !latest_snoc. case_decide; [done | apply IH].
Qed.

Lemma latest_Some (l : list Fund) (k : string) (f : Fund) :
  latest l k = Some f → f ∈ l ∧ fund_id f = k.
Proof.
  unfold latest. intros [Hin Hk]%find_some.
  apply bool_decide_eq_true in Hk. by rewrite list_elem_of_In, in_rev.
Qed.

Lemma latest_None (l : list Fund) (k : string) :
  latest l k = None ↔ k ∉ map fund_id l.
Proof.
  induction l as [|f l IH] using rev_ind.
  - split; [intros _; apply not_elem_of_nil | done].
  - rewrite latest_snoc, map_app, elem_of_app. cbn [map].
    rewrite list_elem_of_singleton. case_decide.
    + split; [done | intros Hn; destruct Hn; by right].
    + rewrite IH. split; [intros ? [?|?]; [done | congruence] | tauto].
Qed.

Lemma setAll_get (l : list Fund) (m : Js.JsObject Fund) (k : string) :
  Js.get (setAll l m) k
  = match latest l k with Some f => Some f | None => Js.get m k end.
Proof.
  induction l as [|f l IH] using rev_ind; [done |].
  rewrite setAll_snoc, latest_snoc.
  case_decide as Hk; [subst k; apply get_set_eq | by rewrite get_set_ne].
Qed.

Lemma setAll_NoDup (l : list Fund) (m : Js.JsObject Fund) :
  NoDup (Js.keys m) → NoDup (Js.keys (setAll l m)).
Proof.
  intros Hm. induction l as [|f l IH] using rev_ind; [done |].
  rewrite setAll_snoc. by apply NoDup_keys_set.
Qed.

Lemma setAll_keys_present (l : list Fund) (m : Js.JsObject Fund) :
  (∀ f, f ∈ l → fund_id f ∈ Js.keys m) → Js.keys (setAll l m) = Js.keys m.
Proof.
  induction l as [|f l IH] using rev_ind; intros Hin; [done |].
  rewrite setAll_snoc, keys_set, IH.
  - rewrite decide_True; [done |]. apply Hin, elem_of_app. right.
    apply list_elem_of_here.
  - intros g Hg. apply Hin, elem_of_app. by left.
Qed.

Lemma set_keyed_by_id (f : Fund) (m : Js.JsObject Fund) :
  keyed_by_id m → keyed_by_id (Js.set (fund_id f) f m).
Proof.
  unfold keyed_by_id. induction m as [|[k0 f0] m IH]; intros Hm k g;
    cbn [Js.set].
  - by intros [= -> ->]%list_elem_of_singleton.
  - case_decide.
    + intros [[= -> ->]|Hin]%elem_of_cons; [done |].
      apply Hm. by apply list_elem_of_further.
    + intros [[= -> ->]|Hin]%elem_of_cons.
      * apply Hm, list_elem_of_here.
      * apply IH; [| done]. intros ? ? ?. apply Hm. by apply list_elem_of_further.
Qed.

Lemma setAll_keyed_by_id (l : list Fund) (m : Js.JsObject Fund) :
  keyed_by_id m → keyed_by_id (setAll l m).
Proof.
  intros Hm. induction l as [|f l IH] using rev_ind; [done |].
  rewrite setAll_snoc. by apply set_keyed_by_id.
Qed.

Lemma set_fresh {V} (k : string) (v : V) (m : Js.JsObject V) :
  k ∉ Js.keys m → Js.set k v m = (m ++ [(k, v)])%list.
Proof.
  unfold Js.keys. induction m as [|[k0 v0] m IH]; cbn [Js.set map fst app];
    [done |].
  intros [Hne Hnin]%not_elem_of_cons. rewrite decide_False by done.
  by rewrite IH.
Qed.

(** Reading the values of a map back into a map restores it. *)
Lemma setAll_values (m m0 : Js.JsObject Fund) :
  keyed_by_id m →
  NoDup (Js.keys (m0 ++ m)%list) →
  setAll (Js.values m) m0 = (m0 ++ m)%list.
Proof.
  revert m0. induction m as [|[k f] m IH]; intros m0 Hk Hnd.
  - by rewrite app_nil_r.
  - cbn [Js.values map snd]. unfold setAll. cbn [fold_left].
    assert (fund_id f = k) as -> by apply Hk, list_elem_of_here.
    rewrite set_fresh.
    + fold (setAll (Js.values m) (m0 ++ [(k, f)])%list).
      rewrite IH; rewrite <- ?app_assoc; [done | | done].
      intros ? ? ?. apply Hk. by apply list_elem_of_further.
    + unfold Js.keys in Hnd. rewrite map_app in Hnd.
      apply NoDup_app in Hnd as (_ & Hdisj & _). intros Hin.
      apply (Hdisj k Hin). apply list_elem_of_here.
Qed.

Lemma mergeFunds_idempotent (local fetched : list Fund) :
  mergeFunds (mergeFunds local fetched) fetched = mergeFunds local fetched.
Proof.
  unfold mergeFunds.
  set (m1 := setAll fetched (setAll local [])).
  assert (Hnd : NoDup (Js.keys m1)) by (do 2 apply setAll_NoDup; constructor).
  assert (Hk : keyed_by_id m1).
  { do 2 apply setAll_keyed_by_id. by intros ? ? ?%elem_of_nil. }
  rewrite (setAll_values m1 []) by done. cbn [app]. f_equal.
  assert (Hkeys : Js.keys (setAll fetched m1) = Js.keys m1).
  { apply setAll_keys_present. intros f Hf. apply get_Some_keys.
    subst m1. rewrite setAll_get.
    destruct (latest fetched (fund_id f)) eqn:Hl; [done |].
    apply latest_None in Hl. destruct Hl.
    change (map fund_id fetched) with (fund_id <$> fetched).
    by apply list_elem_of_fmap_2. }
  apply object_ext; [by apply setAll_NoDup | done |].
  intros k. rewrite setAll_get. subst m1. rewrite setAll_get.
  by destruct (latest fetched k).
Qed.

Lemma mergeFunds_NoDup (local fetched : list Fund) :
  NoDup (map fund_id (mergeFunds local fetched)).
Proof.
  unfold mergeFunds.
  set (m1 := setAll fetched (setAll local [])).
  assert (Hnd : NoDup (Js.keys m1)) by (do 2 apply setAll_NoDup; constructor).
  assert (Hk : keyed_by_id m1).
  { do 2 apply setAll_keyed_by_id. by intros ? ? ?%elem_of_nil. }
  assert (map fund_id (Js.values m1) = Js.keys m1) as ->; [| done].
  unfold Js.values, Js.keys. rewrite map_map. apply map_ext_in.
  intros [k f] Hin. cbn [fst snd]. by apply Hk, list_elem_of_In.
Qed.

Lemma elem_of_mergeFunds (local fetched : list Fund) (f : Fund) :
  f ∈ mergeFunds local fetched ↔ latest (local ++ fetched)%list (fund_id f) = Some f.
Proof.
  unfold mergeFunds.
  set (m1 := setAll fetched (setAll local [])).
  assert (Hnd : NoDup (Js.keys m1)) by (do 2 apply setAll_NoDup; constructor).
  assert (Hk : keyed_by_id m1).
  { do 2 apply setAll_keyed_by_id. by intros ? ? ?%elem_of_nil. }
  assert (Hget : ∀ k, Js.get m1 k = latest (local ++ fetched)%list k).
  { intros k. subst m1. rewrite !setAll_get, latest_app.
    destruct (latest fetched k); [done |]. by destruct (latest local k). }
  rewrite <- Hget. unfold Js.values. rewrite list_elem_of_In, in_map_iff. split.
  - intros ([k g] & <- & Hin). cbn [snd]. apply list_elem_of_In in Hin.
    rewrite (Hk _ _ Hin). by apply elem_of_get.
  - intros Hg%get_elem_of. exists (fund_id f, f). by rewrite <- list_elem_of_In.
Qed.

Lemma truthy_string_true (x : string) : x ≠ "" → Js.truthy_string x = true.
Proof. by destruct x. Qed.

Lemma loadUserFundsOf_funds (captured : list Fund) (userId' : string)
    (fetched : list Fund) (s : AppState) :
  userId' ≠ "" →
  loadUserFundsOf captured userId' (Resolved fetched) s
  = (Resolved tt,
     setIsLoading false
       (setHasInitiallyLoaded true
          (emit FundsWritten
             (setFunds (mergeFunds captured fetched)
                (emit (Remote (CallGetUserFunds userId')) (setIsLoading true s)))))).
Proof.
  intros Hid. unfold loadUserFundsOf. by rewrite truthy_string_true.
Qed.

(** C5: the merge of [loadUserFunds] starts from the funds its callback
    closed over, not from the funds the provider holds when the response
    arrives.  The funds afterwards are the merge of the captured funds and
    the response, so a fund the provider holds that is neither among the
    captured funds nor in the response is dropped.  The authentication
    listener calls the callback of the first render, whose funds are empty:
    after a mount without a stored user, a fund added by [fetchFundById] is
    gone once the sign-in has loaded the funds of the user, where the
    additive merge of the held funds and the response keeps it. *)
Theorem loadUserFunds_stale_closure_drops_funds (captured fetched : list Fund)
    (c : ascii) (rest : string) (s : AppState) :
  let s' := snd (loadUserFundsOf captured (String c rest) (Resolved fetched) s) in
  funds s' = mergeFunds captured fetched
  ∧ (∀ f, f ∈ funds s →
          fund_id f ∉ map fund_id captured →
          fund_id f ∉ map fund_id fetched →
          f ∉ funds s')
  ∧ (let draft := mkFund "f9" "Draft" "" ["A"] 0 "A" in
     let trip := mkFund "f1" "Trip" "" ["A"] 1 "A" in
     let mounted := restoreSession (Resolved []) (initialState NoSnapshot) in
     let held := snd (fetchFundById (λ _, Resolved (Some draft)) "f9" (snd mounted)) in
     let signedIn := snd (onAuthStateChange (mkClosure None [] false)
                            (Some (mkFirebaseUser "A" None None None))
                            (Resolved (mkUser "A" "An" "" "" None))
                            (Resolved [trip]) held) in
     fst mounted = Resolved (mkClosure None [] false)
     ∧ funds held = [draft]
     ∧ funds signedIn = [trip]
     ∧ mergeFunds (funds held) [trip] = [draft; trip]).
Proof.
  cbn zeta.
  assert (Hfunds : funds (snd (loadUserFundsOf captured (String c rest)
                                 (Resolved fetched) s))
                   = mergeFunds captured fetched).
  { by rewrite loadUserFundsOf_funds. }
  split_and!; [done | | by vm_compute ..].
  intros f Hf Hcaptured Hfetched. rewrite Hfunds.
  intros Hin%elem_of_mergeFunds. apply latest_Some in Hin as [Hin _].
  apply elem_of_app in Hin as [Hin | Hin].
  - apply Hcaptured. change (map fund_id captured) with (fund_id <$> captured).
    by apply list_elem_of_fmap_2.
  - apply Hfetched. change (map fund_id fetched) with (fund_id <$> fetched).
    by apply list_elem_of_fmap_2.
Qed.

(** X26: a successful [loadUserFunds] taken from the context of the current
    render, with no other write of the funds between the call and the
    response, merges the fetched funds into the local ones in a map keyed by
    id.  The new collection has no two funds of one id; for an id the
    response carries it holds the fetched fund (the last one, should the
    response repeat the id); for any other id of a local fund it keeps the
    local fund; and it holds nothing else.  A second load with the same
    response leaves the collection as the first one made it, whether the
    callback of the new render or the former callback runs. *)
Theorem loadUserFunds_merge_idempotent (s : AppState) (userId' : string)
    (fetched : list Fund) :
  userId' ≠ "" →
  let s1 := snd (loadUserFunds userId' (Resolved fetched) s) in
  let s2 := snd (loadUserFunds userId' (Resolved fetched) s1) in
  let s2' := snd (loadUserFundsOf (funds s) userId' (Resolved fetched) s1) in
  NoDup (map fund_id (funds s1))
  ∧ (∀ f, latest fetched (fund_id f) = Some f → f ∈ funds s1)
  ∧ (∀ f, fund_id f ∉ map fund_id fetched →
          latest (funds s) (fund_id f) = Some f → f ∈ funds s1)
  ∧ (∀ f, f ∈ funds s1 →
          f ∈ fetched ∨ (f ∈ funds s ∧ fund_id f ∉ map fund_id fetched))
  ∧ (∀ f, f ∈ funds s ∨ f ∈ fetched → fund_id f ∈ map fund_id (funds s1))
  ∧ funds s2 = funds s1
  ∧ NoDup (map fund_id (funds s2))
  ∧ funds s2' = funds s1.
Proof.
  intros Hid. cbn zeta. unfold loadUserFunds, with_render.
  rewrite !loadUserFundsOf_funds by done. run_app.
  rewrite mergeFunds_idempotent.
  split_and!; try done; try apply mergeFunds_NoDup.
  - intros f Hf. apply elem_of_mergeFunds. by rewrite latest_app, Hf.
  - intros f Hn%latest_None Hl. apply elem_of_mergeFunds.
    by rewrite latest_app, Hn.
  - intros f Hf%elem_of_mergeFunds. rewrite latest_app in Hf.
    destruct (latest fetched (fund_id f)) as [g|] eqn:Hg.
    + injection Hf as ->. left. by apply latest_Some in Hg as [? _].
    + right. apply latest_Some in Hf as [? _]. by apply latest_None in Hg.
  - intros f Hf.
    assert (is_Some (latest (funds s ++ fetched)%list (fund_id f))) as [g Hg].
    { apply not_eq_None_Some. rewrite latest_None, map_app.
      intros Hn. apply Hn, elem_of_app.
      change (map fund_id ?l) with (fund_id <$> l).
      destruct Hf; [left | right]; by apply list_elem_of_fmap_2. }
    pose proof (latest_Some _ _ _ Hg) as [_ Hid'].
    rewrite <- Hid' in Hg. apply elem_of_mergeFunds in Hg.
    rewrite <- Hid'. change (map fund_id ?l) with (fund_id <$> l).
    by apply list_elem_of_fmap_2.
Qed.

Lemma loadUserFunds_merge_idempotent_witness :
  let s := setFunds [mkFund "f1" "Trip" "" ["A"] 0 "A";
                     mkFund "f2" "Rent" "" ["A"] 0 "A"]
             (initialState NoSnapshot) in
  let fetched := [mkFund "f3" "Food" "" ["A"; "B"] 0 "B";
                  mkFund "f1" "Trip 2025" "" ["A"; "B"] 0 "A"] in
  let s1 := snd (loadUserFunds "A" (Resolved fetched) s) in
  "A" ≠ ""
  ∧ funds s1 = [mkFund "f1" "Trip 2025" "" ["A"; "B"] 0 "A";
                mkFund "f2" "Rent" "" ["A"] 0 "A";
                mkFund "f3" "Food" "" ["A"; "B"] 0 "B"]
  ∧ funds (snd (loadUserFunds "A" (Resolved fetched) s1)) = funds s1.
Proof.
  cbn zeta. split_and!; [discriminate | reflexivity |].
  refine (proj1 (proj2 (proj2 (proj2 (proj2 (proj2
            (loadUserFunds_merge_idempotent _ "A" _ _))))))).
  discriminate.
Defined.

(** ** Transaction store: loading *)

Lemma or_now_value (a : option Z) (clock : Clock) (tick : nat) :
  (∀ n, a = Some n → n ≠ 0 → fst (or_now a clock tick) = n)
  ∧ (falsy_number a = true → fst (or_now a clock tick) = clock tick).
Proof.
  unfold or_now, falsy_number, Js.truthy_number. destruct a as [n|]; [| done].
  destruct (Z.eqb_spec n 0) as [->|Hn]; cbn [negb fst]; split; try done.
  all: by intros ? [= <-] ?.
Qed.

Lemma or_else_value (a b : option Z) :
  (∀ n, a = Some n → n ≠ 0 → or_else a b = Some n)
  ∧ (falsy_number a = true → or_else a b = b).
Proof.
  unfold or_else, falsy_number, Js.truthy_number. destruct a as [n|]; [| done].
  destruct (Z.eqb_spec n 0) as [->|Hn]; cbn [negb]; split; try done.
  all: by intros ? [= <-] ?.
Qed.

Lemma validTransaction_fields (f : string) (clock : Clock) (tick : nat)
    (raw : RawTransaction) :
  let t := fst (validTransaction f clock tick raw) in
  tx_id t = Js.or_string (raw_id raw) "unknown"
  ∧ fundId t = Js.or_string (raw_fundId raw) f
  ∧ description t = Js.or_string (raw_description raw) "Giao dịch"
  ∧ amount t = default 0 (raw_amount raw)
  ∧ paidBy t = Js.or_string (raw_paidBy raw) ""
  ∧ splits t = default [] (raw_splits raw)
  ∧ (∀ c, raw_createdAt raw = Some c → c ≠ 0 → createdAt t = c)
  ∧ (falsy_number (raw_createdAt raw) = true → ∃ n, createdAt t = clock n)
  ∧ (∀ d, raw_date raw = Some d → d ≠ 0 → date t = d)
  ∧ (∀ c, falsy_number (raw_date raw) = true →
          raw_createdAt raw = Some c → c ≠ 0 → date t = c)
  ∧ (falsy_number (raw_date raw) = true →
     falsy_number (raw_createdAt raw) = true → ∃ n, date t = clock n)
  ∧ ((∀ n, clock n ≠ 0) → date t ≠ 0).
Proof.
  cbn zeta. unfold validTransaction.
  destruct (or_now (raw_createdAt raw) clock tick) as [c' tick1] eqn:Hc.
  destruct (or_now (or_else _ _) clock tick1) as [d' tick2] eqn:Hd.
  cbn [fst tx_id fundId description amount paidBy splits createdAt date].
  pose proof (or_now_value (raw_createdAt raw) clock tick) as [Hc1 Hc2].
  pose proof (or_now_value (or_else (raw_date raw) (raw_createdAt raw)) clock tick1)
    as [Hd1 Hd2].
  pose proof (or_else_value (raw_date raw) (raw_createdAt raw)) as [He1 He2].
  rewrite Hc in Hc1, Hc2. rewrite Hd in Hd1, Hd2. cbn [fst] in *.
  split_and!; try done.
  - eauto.
  - intros d Hraw Hnz. apply Hd1; [| done]. by apply He1.
  - intros c Hfd Hraw Hnz. apply Hd1; [| done]. by rewrite He2.
  - intros Hfd Hfc. exists tick1. apply Hd2. by rewrite He2.
  - intros Hclock.
    destruct (or_else (raw_date raw) (raw_createdAt raw)) as [n|] eqn:Hor.
    + destruct (decide (n = 0)) as [->|Hn].
      * rewrite Hd2 by done. apply Hclock.
      * by rewrite (Hd1 n).
    + rewrite Hd2 by done. apply Hclock.
Qed.

Lemma elem_of_processTransactions (f : string) (clock : Clock) (tick : nat)
    (l : list RawTransaction) (t : Transaction) :
  t ∈ processTransactions f clock tick l →
  ∃ raw tick', raw ∈ l ∧ t = fst (validTransaction f clock tick' raw).
Proof.
  revert tick. induction l as [|raw l IH]; intros tick; cbn [processTransactions].
  - by intros ?%elem_of_nil.
  - destruct (validTransaction f clock tick raw) as [v tick'] eqn:Hv.
    intros [->|Hin]%elem_of_cons.
    + exists raw, tick. rewrite Hv. split; [apply list_elem_of_here | done].
    + destruct (IH _ Hin) as (raw' & tick'' & Hraw & ->).
      exists raw', tick''. split; [by apply list_elem_of_further | done].
Qed.

Lemma processTransactions_length (f : string) (clock : Clock) (tick : nat)
    (l : list RawTransaction) :
  length (processTransactions f clock tick l) = length l.
Proof.
  revert tick. induction l as [|raw l IH]; intros tick; cbn [processTransactions];
    [done |].
  destruct (validTransaction f clock tick raw). cbn [length]. by rewrite IH.
Qed.

Lemma StronglySorted_weaken {A} (R R' : A → A → Prop) (l : list A) :
  (∀ a b, a ∈ l → b ∈ l → R a b → R' a b) →
  StronglySorted R l → StronglySorted R' l.
Proof.
  intros HR Hs. induction Hs as [|a l Hs IH Hall]; constructor.
  - apply IH. intros ? ? ? ?. apply HR; by apply list_elem_of_further.
  - apply Forall_forall. intros b Hb. apply HR.
    + apply list_elem_of_here.
    + by apply list_elem_of_further.
    + by eapply Forall_forall in Hall.
Qed.

Lemma sortTransactions_sorted (l : list Transaction) :
  StronglySorted (λ a b, effective_date b ≤ effective_date a) (sortTransactions l).
Proof.
  unfold sortTransactions. apply sort_by_sorted.
  - unfold compare_by_date. intros x y ?%Z.leb_le. lia.
  - unfold compare_by_date. intros x y ?%Z.leb_gt. lia.
  - intros x y z ? ?. lia.
Qed.

Lemma sortTransactions_stable (d : Z) (l : list Transaction) :
  List.filter (λ t, effective_date t =? d) (sortTransactions l)
  = List.filter (λ t, effective_date t =? d) l.
Proof.
  unfold sortTransactions. apply sort_by_filter.
  unfold compare_by_date. intros a b ->%Z.eqb_eq ->%Z.eqb_eq.
  apply Z.leb_le. lia.
Qed.

Lemma loadFundTransactions_resolved (f : string) (fetched : list RawTransaction)
    (clock : Clock) (s : AppState) :
  f ≠ "" →
  loadFundTransactions f (Resolved fetched) clock s
  = (Resolved tt,
     setIsLoading false
       (setTransactions (sortTransactions (processTransactions f clock 0 fetched))
          (emit (Remote (CallGetFundTransactions f)) (setIsLoading true s)))).
Proof.
  intros Hf. unfold loadFundTransactions. rewrite truthy_string_true by done.
  cbn [negb]. run_app. by destruct fetched.
Qed.

(** C7 (amended): a successful [loadFundTransactions] replaces the local
    transactions by the normalised response, whatever was held before.  Every
    fetched transaction is normalised field by field: an empty or missing
    description becomes "Giao dịch", an amount that is not a number becomes 0,
    splits that are not an array become the empty list, a missing [createdAt]
    becomes a reading of the clock, and a missing [date] becomes the
    [createdAt] of the response when there is one and a reading of the clock
    otherwise.  The new collection is in descending order of date, and
    transactions of the same date keep the order of the response: [createdAt]
    does not break ties. *)
Theorem loadFundTransactions_replaces_sorted (s : AppState) (f : string)
    (fetched : list RawTransaction) (clock : Clock) :
  f ≠ "" →
  let s1 := snd (loadFundTransactions f (Resolved fetched) clock s) in
  let processed := processTransactions f clock 0 fetched in
  transactions s1 ≡ₚ processed
  ∧ length (transactions s1) = length fetched
  ∧ (∀ t, t ∈ transactions s1 →
          ∃ raw tick, raw ∈ fetched ∧ t = fst (validTransaction f clock tick raw))
  ∧ (∀ raw tick,
       let t := fst (validTransaction f clock tick raw) in
       description t = Js.or_string (raw_description raw) "Giao dịch"
       ∧ description t ≠ ""
       ∧ amount t = default 0 (raw_amount raw)
       ∧ splits t = default [] (raw_splits raw)
       ∧ (∀ c, raw_createdAt raw = Some c → c ≠ 0 → createdAt t = c)
       ∧ (falsy_number (raw_createdAt raw) = true → ∃ n, createdAt t = clock n)
       ∧ (∀ d, raw_date raw = Some d → d ≠ 0 → date t = d)
       ∧ (∀ c, falsy_number (raw_date raw) = true →
               raw_createdAt raw = Some c → c ≠ 0 → date t = c)
       ∧ (falsy_number (raw_date raw) = true →
          falsy_number (raw_createdAt raw) = true → ∃ n, date t = clock n))
  ∧ StronglySorted (λ a b, effective_date b ≤ effective_date a) (transactions s1)
  ∧ ((∀ n, clock n ≠ 0) →
     StronglySorted (λ a b, date b ≤ date a) (transactions s1))
  ∧ (∀ d, List.filter (λ t, effective_date t =? d) (transactions s1)
          = List.filter (λ t, effective_date t =? d) processed).
Proof.
  intros Hf. cbn zeta. rewrite loadFundTransactions_resolved by done.
  cbn [snd transactions setIsLoading setTransactions].
  assert (Hperm : sortTransactions (processTransactions f clock 0 fetched)
                  ≡ₚ processTransactions f clock 0 fetched)
    by apply sort_by_perm.
  assert (Hraw : ∀ t, t ∈ sortTransactions (processTransactions f clock 0 fetched) →
            ∃ raw tick, raw ∈ fetched ∧ t = fst (validTransaction f clock tick raw)).
  { intros t Ht. rewrite Hperm in Ht. by eapply elem_of_processTransactions. }
  split_and!.
  - done.
  - by rewrite Hperm, processTransactions_length.
  - done.
  - intros raw tick. cbn zeta.
    destruct (validTransaction_fields f clock tick raw)
      as (_ & _ & Hd & Ha & _ & Hs & Hc1 & Hc2 & Hd1 & Hd2 & Hd3 & _).
    split_and!; try done.
    rewrite Hd. unfold Js.or_string.
    destruct (raw_description raw) as [[|]|]; done.
  - apply sortTransactions_sorted.
  - intros Hclock. eapply StronglySorted_weaken; [| apply sortTransactions_sorted].
    intros a b Ha Hb. cbn beta.
    assert (Heff : ∀ t, t ∈ sortTransactions (processTransactions f clock 0 fetched) →
              effective_date t = date t).
    { intros t (raw & tick & _ & ->)%Hraw. unfold effective_date, Js.truthy_number.
      pose proof (validTransaction_fields f clock tick raw) as Hfields.
      cbn zeta in Hfields. destruct Hfields as (_&_&_&_&_&_&_&_&_&_&_& Hnz).
      specialize (Hnz Hclock).
      by destruct (Z.eqb_spec (date (fst (validTransaction f clock tick raw))) 0). }
    by rewrite !Heff.
  - intros d. apply sortTransactions_stable.
Qed.

Lemma loadFundTransactions_replaces_sorted_witness :
  let fetched :=
    [mkRaw (Some "t1") (Some "f1") (Some "Lunch") (Some 90) (Some "A")
       (Some [mkSplit "A" 45; mkSplit "B" 45]) (Some 1000) (Some 2000);
     mkRaw (Some "t2") None None None None None None None;
     mkRaw (Some "t3") (Some "f1") (Some "") (Some 10) (Some "B")
       (Some []) (Some 3000) None] in
  let s := setTransactions [mkTransaction "old" "f0" "Old" 1 "A" [] 1 1]
             (initialState NoSnapshot) in
  let s1 := snd (loadFundTransactions "f1" (Resolved fetched) (λ _, 5000) s) in
  "f1" ≠ ""
  ∧ map tx_id (transactions s1) = ["t2"; "t3"; "t1"]
  ∧ map date (transactions s1) = [5000; 3000; 2000]
  ∧ StronglySorted (λ a b, date b ≤ date a) (transactions s1).
Proof.
  cbn zeta. split_and!; [discriminate | reflexivity | reflexivity |].
  refine (proj1 (proj2 (proj2 (proj2 (proj2 (proj2
            (loadFundTransactions_replaces_sorted _ "f1" _ (λ _, 5000) _)))))) _).
  - discriminate.
  - intros _. discriminate.
Defined.

(** C7 as the specification words it: two fetched transactions of the same
    date stay in the order of the response, here ascending [createdAt]. *)
Lemma loadFundTransactions_counterexample :
  let fetched :=
    [mkRaw (Some "t1") (Some "f1") (Some "Lunch") (Some 90) (Some "A")
       (Some []) (Some 1000) (Some 5000);
     mkRaw (Some "t2") (Some "f1") (Some "Taxi") (Some 30) (Some "B")
       (Some []) (Some 2000) (Some 5000)] in
  let s1 := snd (loadFundTransactions "f1" (Resolved fetched) (λ _, 9000)
                   (initialState NoSnapshot)) in
  map (λ t, (tx_id t, date t, createdAt t)) (transactions s1)
  = [("t1", 5000, 1000); ("t2", 5000, 2000)]
  ∧ sortedb date_then_createdAt (transactions s1) = false.
Proof. by vm_compute. Qed.

(** ** User cache: batch loading *)

Lemma dedupe_from (l seen : list string) :
  NoDup seen →
  let r := fold_left
             (λ seen x, if bool_decide (x ∈ seen) then seen else (seen ++ [x])%list)
             l seen in
  NoDup r ∧ ∀ x, x ∈ r ↔ x ∈ seen ∨ x ∈ l.
Proof.
  revert seen. induction l as [|a l IH]; intros seen Hnd; cbn [fold_left].
  - split; [done |]. intros x. rewrite elem_of_nil. tauto.
  - case_bool_decide as Ha.
    + destruct (IH seen Hnd) as [Hr Hin]. split; [done |].
      intros x. rewrite Hin, elem_of_cons.
      split; [tauto |]. intros [?|[->|?]]; tauto.
    + destruct (IH (seen ++ [a])%list) as [Hr Hin].
      { apply NoDup_app. split_and!; [done | | apply NoDup_singleton].
        by intros x ? ->%list_elem_of_singleton. }
      split; [done |]. intros x.
      rewrite Hin, elem_of_app, list_elem_of_singleton, elem_of_cons. tauto.
Qed.

Lemma dedupe_spec (l : list string) :
  NoDup (dedupe l) ∧ ∀ x, x ∈ dedupe l ↔ x ∈ l.
Proof.
  destruct (dedupe_from l [] NoDup_nil_2) as [Hnd Hin].
  split; [done |]. intros x. unfold dedupe. rewrite Hin, elem_of_nil. tauto.
Qed.

Lemma elem_of_uniqueIds (s : AppState) (userIds : list string) (id : string) :
  id ∈ uniqueIds s userIds
  ↔ id ∈ userIds ∧ id ≠ ""
    ∧ (∀ cu, currentUser s = Some cu → user_id cu ≠ id)
    ∧ users s !! id = None
    ∧ Js.inherited id = false.
Proof.
  unfold uniqueIds. rewrite list_elem_of_In, filter_In, <- list_elem_of_In.
  rewrite (proj2 (dedupe_spec userIds)), !andb_true_iff, !negb_true_iff,
    orb_false_iff, !bool_decide_eq_false.
  assert (Js.truthy_string id = true ↔ id ≠ "") as -> by by destruct id.
  rewrite <- eq_None_not_Some.
  assert (Some id ≠ user_id <$> currentUser s
          ↔ ∀ cu, currentUser s = Some cu → user_id cu ≠ id) as ->; [| tauto].
  destruct (currentUser s) as [cu|]; cbn [fmap option_fmap option_map]; split.
  - intros Hne ? [= <-]. congruence.
  - intros Hne. specialize (Hne cu eq_refl). congruence.
  - done.
  - done.
Qed.

Lemma NoDup_filter_bool {A} (p : A → bool) (l : list A) :
  NoDup l → NoDup (List.filter p l).
Proof.
  induction 1 as [|a l Hnin Hnd IH]; cbn [List.filter]; [constructor |].
  destruct (p a); [| done]. constructor; [| done].
  rewrite list_elem_of_In, filter_In, <- list_elem_of_In. tauto.
Qed.

Lemma mergeUsers_absent (usersMap : Js.JsObject User) (prev : gmap string User)
    (k : string) :
  k ∉ Js.keys usersMap → mergeUsers usersMap prev !! k = prev !! k.
Proof.
  unfold mergeUsers, Js.keys. revert prev.
  induction usersMap as [|[k0 u0] m IH]; intros prev; cbn [fold_left map fst snd];
    [done |].
  intros [Hne Hnin]%not_elem_of_cons. rewrite IH by done.
  by rewrite lookup_insert_ne.
Qed.

Lemma mergeUsers_present (usersMap : Js.JsObject User) (prev : gmap string User)
    (k : string) (u : User) :
  NoDup (Js.keys usersMap) → (k, u) ∈ usersMap →
  mergeUsers usersMap prev !! k = Some u.
Proof.
  revert prev. induction usersMap as [|[k0 u0] m IH]; intros prev.
  - by intros _ ?%elem_of_nil.
  - unfold Js.keys. cbn [map fst].
    intros [Hnin Hnd]%NoDup_cons [[= -> ->]|Hin]%elem_of_cons.
    + change (mergeUsers ((k0, u0) :: m) prev) with (mergeUsers m (<[k0:=u0]> prev)).
      rewrite mergeUsers_absent by done. apply lookup_insert_eq.
    + by apply IH.
Qed.

Lemma elem_of_getUsersByIds (db : gmap string User) (ids : list string)
    (k : string) (u : User) :
  (k, u) ∈ getUsersByIds db ids ↔ k ∈ ids ∧ db !! k = Some u.
Proof.
  unfold getUsersByIds. rewrite list_elem_of_omap. split.
  - intros (id & Hid & Hf). destruct (db !! id) as [v|] eqn:Hdb; [| done].
    by injection Hf as -> ->.
  - intros [Hid Hdb]. exists k. by rewrite Hdb.
Qed.

Lemma keys_getUsersByIds (db : gmap string User) (ids : list string) :
  NoDup ids →
  NoDup (Js.keys (getUsersByIds db ids))
  ∧ ∀ k, k ∈ Js.keys (getUsersByIds db ids) → k ∈ ids.
Proof.
  unfold getUsersByIds, Js.keys.
  induction 1 as [|id ids Hnin Hnd [IH1 IH2]]; cbn [omap list_omap map].
  - split; [constructor | done].
  - destruct (db !! id) as [u|]; cbn [map fst].
    + split.
      * constructor; [| done]. intros Hin. by apply Hnin, IH2.
      * intros k [->|Hk]%elem_of_cons;
          [apply list_elem_of_here | by apply list_elem_of_further, IH2].
    + split; [done |]. intros k Hk. by apply list_elem_of_further, IH2.
Qed.

Lemma loadUsers_nothing_to_fetch (s : AppState) (userIds : list string)
    (settled : Outcome (Js.JsObject User)) :
  uniqueIds s userIds = [] → loadUsers userIds settled s = (Resolved tt, s).
Proof.
  intros Hu. unfold loadUsers, with_render. rewrite Hu.
  by destruct (length userIds =? 0)%nat.
Qed.

Lemma loadUsers_fetch (s : AppState) (userIds : list string)
    (settled : Outcome (Js.JsObject User)) :
  uniqueIds s userIds ≠ [] →
  loadUsers userIds settled s
  = let s' := emit (Remote (CallGetUsersByIds (uniqueIds s userIds)))
                (setIsLoading true s) in
    (Resolved tt,
     setIsLoading false
       match settled with
       | Resolved usersMap => setUsers (mergeUsers usersMap (users s')) s'
       | Rejected _ => s'
       end).
Proof.
  intros Hu. unfold loadUsers, with_render.
  destruct userIds as [|id0 userIds]; [done |]. cbn [length Nat.eqb].
  destruct (uniqueIds s (id0 :: userIds)) as [|id ids]; [done |].
  cbn [length Nat.eqb]. by destruct settled.
Qed.

(** C9 (amended): [loadUsers] removes repeated ids, empty ids, the id of
    the current user, the ids the cache already holds and the ids that name
    a member of [Object.prototype] (for these the read [users[id]] finds the
    inherited member).  When nothing is left it resolves at once: no remote
    call, no change of state.  Otherwise it issues exactly one remote call,
    for the remaining ids.  When that call succeeds, the cache afterwards
    holds the fetched profile of every remaining id that exists remotely,
    hence an entry for every requested non-empty id that exists remotely, is
    not the current user's and names no member of [Object.prototype]; no
    profile the cache held is replaced, the entry under the current user's
    id included, and [currentUser] is untouched.  When the call fails the
    cache is unchanged.  The id of the current user is never fetched, so the
    call gives it no cache entry. *)
Theorem loadUsers_batch (s : AppState) (userIds : list string)
    (db : gmap string User) :
  let ids := uniqueIds s userIds in
  NoDup ids
  ∧ (∀ id, id ∈ ids
           ↔ id ∈ userIds ∧ id ≠ ""
             ∧ (∀ cu, currentUser s = Some cu → user_id cu ≠ id)
             ∧ users s !! id = None
             ∧ Js.inherited id = false)
  ∧ (ids = [] → ∀ settled, loadUsers userIds settled s = (Resolved tt, s))
  ∧ (ids ≠ [] →
     let result := loadUsers userIds (Resolved (getUsersByIds db ids)) s in
     let s1 := snd result in
     fst result = Resolved tt
     ∧ trace s1 = (trace s ++ [Remote (CallGetUsersByIds ids)])%list
     ∧ (∀ id u, id ∈ ids → db !! id = Some u → users s1 !! id = Some u)
     ∧ (∀ id, id ∈ userIds → id ≠ "" →
              (∀ cu, currentUser s = Some cu → user_id cu ≠ id) →
              Js.inherited id = false →
              is_Some (db !! id) → is_Some (users s1 !! id))
     ∧ (∀ id u, users s !! id = Some u → users s1 !! id = Some u)
     ∧ (∀ cu, currentUser s = Some cu →
              users s1 !! user_id cu = users s !! user_id cu)
     ∧ currentUser s1 = currentUser s)
  ∧ (ids ≠ [] → ∀ e,
     let result := loadUsers userIds (Rejected e) s in
     fst result = Resolved tt
     ∧ users (snd result) = users s
     ∧ trace (snd result) = (trace s ++ [Remote (CallGetUsersByIds ids)])%list).
Proof.
  cbn zeta.
  assert (Hnd : NoDup (uniqueIds s userIds)).
  { apply NoDup_filter_bool, dedupe_spec. }
  split_and!.
  - done.
  - apply elem_of_uniqueIds.
  - intros. by apply loadUsers_nothing_to_fetch.
  - intros Hne. rewrite loadUsers_fetch by done.
    cbn [fst snd trace users currentUser setIsLoading setUsers emit].
    set (ids := uniqueIds s userIds) in *.
    destruct (keys_getUsersByIds db ids Hnd) as [Hkeys Hsub].
    assert (Hfetched : ∀ id u, id ∈ ids → db !! id = Some u →
              mergeUsers (getUsersByIds db ids) (users s) !! id = Some u).
    { intros id u Hid Hdb. apply mergeUsers_present; [done |].
      by apply elem_of_getUsersByIds. }
    assert (Hkept : ∀ id, id ∉ ids →
              mergeUsers (getUsersByIds db ids) (users s) !! id = users s !! id).
    { intros id Hid. apply mergeUsers_absent. intros Hk. by apply Hid, Hsub. }
    split_and!; try done.
    + intros id Hin Hid Hcu Hplain [u Hdb].
      destruct (users s !! id) as [v|] eqn:Hv.
      * rewrite Hkept; [by rewrite Hv |].
        intros (_ & _ & _ & Hnone & _)%elem_of_uniqueIds. congruence.
      * exists u. apply Hfetched; [| done]. by apply elem_of_uniqueIds.
    + intros id u Hu. rewrite Hkept; [done |].
      intros (_ & _ & _ & Hnone & _)%elem_of_uniqueIds. congruence.
    + intros cu Hcu. apply Hkept.
      intros (_ & _ & Hcur & _)%elem_of_uniqueIds. by apply (Hcur cu).
  - intros Hne e. by rewrite loadUsers_fetch.
Qed.

(** C9 as the specification words it: the current user's id is requested
    and exists remotely, yet it is filtered out of the batch and the cache
    holds no entry for it afterwards; when the batch call fails the cache
    holds no entry for the other requested id either; and an id that names a
    member of [Object.prototype] is filtered out as if it were cached, so a
    request for it alone issues no call and caches nothing. *)
Lemma loadUsers_counterexample :
  let me := mkUser "me" "Minh" "minh@x.org" "" None in
  let other := mkUser "x" "Xuan" "xuan@x.org" "" None in
  let named := mkUser "constructor" "Cuong" "cuong@x.org" "" None in
  let db : gmap string User :=
    <["me" := me]> (<["x" := other]> (<["constructor" := named]> ∅)) in
  let s := setCurrentUser (Some me) (initialState NoSnapshot) in
  let userIds := ["me"; "x"] in
  let s1 := snd (loadUsers userIds
                   (Resolved (getUsersByIds db (uniqueIds s userIds))) s) in
  let s2 := snd (loadUsers userIds (Rejected (ErrorObject "unavailable")) s) in
  let s3 := snd (loadUsers ["constructor"]
                   (Resolved (getUsersByIds db (uniqueIds s ["constructor"]))) s) in
  "me" ∈ userIds
  ∧ db !! "me" = Some me
  ∧ uniqueIds s userIds = ["x"]
  ∧ users s1 !! "x" = Some other
  ∧ users s1 !! "me" = None
  ∧ users s2 !! "x" = None
  ∧ db !! "constructor" = Some named
  ∧ uniqueIds s ["constructor"] = []
  ∧ users s3 !! "constructor" = None
  ∧ trace s3 = [].
Proof.
  cbn zeta. split_and!; [apply list_elem_of_here | by vm_compute ..].
Qed.

(** * Further properties *)

(** ** Balances: conservation and independence of order *)

Lemma sum_values_set (k : string) (v : Z) (o : Js.JsObject Z) :
  fold_right Z.add 0 (Js.values (Js.set k v o))
  = fold_right Z.add 0 (Js.values o) - default 0 (Js.get o k) + v.
Proof.
  unfold Js.values.
  induction o as [|[k0 v0] o IH]; cbn [Js.set Js.get map snd fold_right default from_option id].
  - lia.
  - case_decide; cbn [map snd fold_right default from_option id]; [lia |].
    rewrite IH. lia.
Qed.

Lemma sum_values_add_split_exact (b : Js.JsObject Z) (s : Split) :
  fold_right Z.add 0 (Js.values (add_split_exact b s))
  = fold_right Z.add 0 (Js.values b) + split_amount s.
Proof. unfold add_split_exact. rewrite sum_values_set. lia. Qed.

Lemma sum_values_fold_add_split_exact (l : list Split) (b : Js.JsObject Z) :
  fold_right Z.add 0 (Js.values (fold_left add_split_exact l b))
  = fold_right Z.add 0 (Js.values b) + sum_splits l.
Proof.
  revert b. induction l as [|s l IH]; intros b; cbn [fold_left].
  - unfold sum_splits. cbn. lia.
  - rewrite IH, sum_values_add_split_exact, sum_splits_cons. lia.
Qed.

Lemma sum_balances_numbers (l : Js.JsObject Z) :
  sum_balances (map (λ e, mkBalance (fst e) (Js.Number (Js.Finite (snd e)))) l)
  = Some (fold_right Z.add 0 (Js.values l)).
Proof.
  unfold sum_balances, Js.values.
  induction l as [|e l IH]; cbn [map fold_right balance_amount]; [done |].
  by rewrite IH.
Qed.

Lemma sum_Z_perm (l k : list Z) :
  l ≡ₚ k → fold_right Z.add 0 l = fold_right Z.add 0 k.
Proof.
  induction 1; cbn [fold_right]; lia.
Qed.

Lemma sum_splits_flat_map (txs : list Transaction) :
  sum_splits (flat_map splits txs)
  = fold_right Z.add 0 (map (λ t, sum_splits (splits t)) txs).
Proof.
  unfold sum_splits. induction txs as [|t txs IH]; cbn [flat_map map fold_right];
    [done |].
  rewrite map_app, fold_right_app, <- IH.
  generalize (fold_right Z.add 0 (map split_amount (flat_map splits txs))).
  induction (map split_amount (splits t)) as [|a l IHl]; intros z;
    cbn [fold_right]; [done |].
  rewrite IHl. lia.
Qed.

(** X1: when no split of the fund is filed under the name of a member of
    [Object.prototype] and the magnitudes of the split amounts add up to at
    most 2^53, the balances of a fund are numbers that add up to the sum of
    all split amounts of its transactions; when the splits of each of these
    transactions cancel out, so do the balances. *)
Theorem calculateBalances_conservation (txs : list Transaction) (f : string) :
  plain_userIds (fund_splits txs f) →
  exact_range (fund_splits txs f) →
  sum_balances (calculateBalances txs f) = Some (sum_splits (fund_splits txs f))
  ∧ ((∀ t, t ∈ txs → fundId t = f → sum_splits (splits t) = 0) →
     sum_balances (calculateBalances txs f) = Some 0).
Proof.
  intros Hplain Hrange.
  assert (Hsum : sum_balances (calculateBalances txs f)
                 = Some (sum_splits (fund_splits txs f))).
  { rewrite calculateBalances_exact, sum_balances_numbers by done.
    apply (f_equal Some). unfold Js.values.
    rewrite (sum_Z_perm _ (map snd (exact_totals (fund_splits txs f)))).
    - fold (Js.values (exact_totals (fund_splits txs f))). unfold exact_totals.
      by rewrite sum_values_fold_add_split_exact.
    - apply Permutation_map, entries_perm. }
  split; [done |]. intros Hzero. rewrite Hsum. apply (f_equal Some).
  unfold fund_splits. rewrite sum_splits_flat_map.
  set (l := List.filter _ txs).
  assert (Hl : ∀ t, In t l → sum_splits (splits t) = 0).
  { intros t [Ht Hf]%filter_In. apply Hzero; [by apply list_elem_of_In |].
    by apply bool_decide_eq_true in Hf. }
  clearbody l. induction l as [|t l IH]; cbn [map fold_right]; [done |].
  rewrite Hl by (by left). rewrite IH; [done |]. intros ? ?. apply Hl. by right.
Qed.

Lemma calculateBalances_conservation_witness :
  let txs := [mkTransaction "t1" "f1" "Lunch" 90 "A"
                [mkSplit "A" 60; mkSplit "B" (-30); mkSplit "C" (-30)] 1 1;
              mkTransaction "t2" "f1" "Taxi" 40 "B"
                [mkSplit "B" 20; mkSplit "A" (-20)] 2 2] in
  plain_userIds (fund_splits txs "f1")
  ∧ exact_range (fund_splits txs "f1")
  ∧ calculateBalances txs "f1"
    = [mkBalance "A" (Js.Number (Js.Finite 40));
       mkBalance "B" (Js.Number (Js.Finite (-10)));
       mkBalance "C" (Js.Number (Js.Finite (-30)))]
  ∧ sum_balances (calculateBalances txs "f1") = Some 0.
Proof.
  cbn zeta.
  assert (Hplain : plain_userIds
            (fund_splits
               [mkTransaction "t1" "f1" "Lunch" 90 "A"
                  [mkSplit "A" 60; mkSplit "B" (-30); mkSplit "C" (-30)] 1 1;
                mkTransaction "t2" "f1" "Taxi" 40 "B"
                  [mkSplit "B" 20; mkSplit "A" (-20)] 2 2] "f1")).
  { intros s Hs. apply list_elem_of_In in Hs.
    repeat (destruct Hs as [<- | Hs]; [reflexivity |]). destruct Hs. }
  assert (Hrange : exact_range
            (fund_splits
               [mkTransaction "t1" "f1" "Lunch" 90 "A"
                  [mkSplit "A" 60; mkSplit "B" (-30); mkSplit "C" (-30)] 1 1;
                mkTransaction "t2" "f1" "Taxi" 40 "B"
                  [mkSplit "B" 20; mkSplit "A" (-20)] 2 2] "f1")).
  { by vm_compute. }
  split_and!; [done | done | reflexivity |].
  apply (proj2 (calculateBalances_conservation _ "f1" Hplain Hrange)).
  intros t Ht _. apply list_elem_of_In in Ht.
  repeat (destruct Ht as [<- | Ht]; [reflexivity |]). destruct Ht.
Defined.

Lemma calculateBalances_entries (txs : list Transaction) (f : string) :
  plain_userIds (fund_splits txs f) →
  exact_range (fund_splits txs f) →
  NoDup (calculateBalances txs f)
  ∧ ∀ e, e ∈ calculateBalances txs f
         ↔ balance_userId e ∈ map userId (fund_splits txs f)
           ∧ balance_amount e
             = Js.Number (Js.Finite (split_total (balance_userId e)
                                       (fund_splits txs f))).
Proof.
  intros Hplain Hrange. rewrite calculateBalances_exact by done.
  set (b := exact_totals (fund_splits txs f)).
  pose proof (exact_totals_NoDup (fund_splits txs f)) as Hnd. fold b in Hnd.
  pose proof (exact_totals_get (fund_splits txs f)) as Hget. fold b in Hget.
  split.
  - apply (NoDup_fmap_1 balance_userId).
    change (NoDup (map balance_userId
                     (map (λ e, mkBalance (fst e) (Js.Number (Js.Finite (snd e))))
                        (Js.entries b)))).
    rewrite map_map. cbn [balance_userId].
    assert (map (λ x, fst x) (Js.entries b) ≡ₚ Js.keys b) as ->; [| done].
    apply Permutation_map, entries_perm.
  - intros [u a]. cbn [balance_userId balance_amount].
    rewrite list_elem_of_In, in_map_iff. split.
    + intros ([k v] & [= -> <-] & Hin). apply list_elem_of_In in Hin.
      rewrite entries_perm in Hin. apply elem_of_get in Hin; [| done].
      rewrite Hget in Hin. case_decide; [| done]. by injection Hin as <-.
    + intros [Hu ->]. exists (u, split_total u (fund_splits txs f)).
      split; [done |]. apply list_elem_of_In. rewrite entries_perm.
      apply get_elem_of. rewrite Hget. by rewrite decide_True.
Qed.

Lemma filter_perm {A} (p : A → bool) (l k : list A) :
  l ≡ₚ k → List.filter p l ≡ₚ List.filter p k.
Proof.
  induction 1 as [|x l k _ IH|x y l|l k m _ IH1 _ IH2]; cbn [List.filter].
  - done.
  - destruct (p x); by rewrite IH.
  - destruct (p x), (p y); try done. apply Permutation_swap.
  - by rewrite IH1.
Qed.

Lemma split_total_perm (u : string) (l k : list Split) :
  l ≡ₚ k → split_total u l = split_total u k.
Proof.
  intros Hp. unfold split_total. apply sum_Z_perm, Permutation_map.
  by apply filter_perm.
Qed.

Lemma magnitude_perm (l k : list Split) : l ≡ₚ k → magnitude l = magnitude k.
Proof. intros Hp. unfold magnitude. by apply sum_Z_perm, Permutation_map. Qed.

(** X2: when no split of the fund is filed under the name of a member of
    [Object.prototype] and the magnitudes of the split amounts add up to at
    most 2^53, the balances of a fund depend only on the transactions of that
    fund, taken as a collection: reordering the transactions, or adding and
    removing transactions of other funds, yields the same balance entries. *)
Theorem calculateBalances_order_independent (txs txs' : list Transaction)
    (f : string) :
  plain_userIds (fund_splits txs f) →
  exact_range (fund_splits txs f) →
  List.filter (λ t, bool_decide (fundId t = f)) txs
    ≡ₚ List.filter (λ t, bool_decide (fundId t = f)) txs' →
  calculateBalances txs f ≡ₚ calculateBalances txs' f.
Proof.
  intros Hplain Hrange Hp.
  assert (Hs : fund_splits txs f ≡ₚ fund_splits txs' f).
  { unfold fund_splits. by apply Permutation_flat_map. }
  assert (Hplain' : plain_userIds (fund_splits txs' f)).
  { intros s Hs'. apply Hplain. by rewrite Hs. }
  assert (Hrange' : exact_range (fund_splits txs' f)).
  { unfold exact_range. by rewrite <- (magnitude_perm _ _ Hs). }
  destruct (calculateBalances_entries txs f Hplain Hrange) as [Hnd Hin].
  destruct (calculateBalances_entries txs' f Hplain' Hrange') as [Hnd' Hin'].
  apply NoDup_Permutation; [done | done |].
  intros e. rewrite Hin, Hin'.
  rewrite (split_total_perm _ _ _ Hs).
  assert (balance_userId e ∈ map userId (fund_splits txs f)
          ↔ balance_userId e ∈ map userId (fund_splits txs' f)) as ->; [| done].
  by rewrite (Permutation_map userId Hs).
Qed.

Lemma calculateBalances_order_independent_witness :
  let t1 := mkTransaction "t1" "f1" "Lunch" 90 "A"
              [mkSplit "A" 60; mkSplit "B" (-30); mkSplit "C" (-30)] 1 1 in
  let t2 := mkTransaction "t2" "f1" "Taxi" 40 "B"
              [mkSplit "B" 20; mkSplit "A" (-20)] 2 2 in
  let t3 := mkTransaction "t3" "f2" "Rent" 500 "D" [mkSplit "D" 500] 3 3 in
  plain_userIds (fund_splits [t1; t3; t2] "f1")
  ∧ exact_range (fund_splits [t1; t3; t2] "f1")
  ∧ calculateBalances [t1; t3; t2] "f1" ≡ₚ calculateBalances [t2; t1] "f1".
Proof.
  cbn zeta.
  assert (Hplain : plain_userIds
            (fund_splits
               [mkTransaction "t1" "f1" "Lunch" 90 "A"
                  [mkSplit "A" 60; mkSplit "B" (-30); mkSplit "C" (-30)] 1 1;
                mkTransaction "t3" "f2" "Rent" 500 "D" [mkSplit "D" 500] 3 3;
                mkTransaction "t2" "f1" "Taxi" 40 "B"
                  [mkSplit "B" 20; mkSplit "A" (-20)] 2 2] "f1")).
  { intros s Hs. apply list_elem_of_In in Hs.
    repeat (destruct Hs as [<- | Hs]; [reflexivity |]). destruct Hs. }
  assert (Hrange : exact_range
            (fund_splits
               [mkTransaction "t1" "f1" "Lunch" 90 "A"
                  [mkSplit "A" 60; mkSplit "B" (-30); mkSplit "C" (-30)] 1 1;
                mkTransaction "t3" "f2" "Rent" 500 "D" [mkSplit "D" 500] 3 3;
                mkTransaction "t2" "f1" "Taxi" 40 "B"
                  [mkSplit "B" 20; mkSplit "A" (-20)] 2 2] "f1")).
  { by vm_compute. }
  split_and!; [done | done |].
  apply (calculateBalances_order_independent _ _ "f1" Hplain Hrange).
  vm_compute. apply Permutation_swap.
Defined.

(** ** The provider as a transition system *)

(** Reduces a completed operation to its final state, one case for every
    way its branches and remote calls can go. *)
Ltac run_cases :=
  run_app;
  repeat (match goal with
          | |- context [match ?x with _ => _ end] =>
              lazymatch x with
              | context [match _ with _ => _ end] => fail
              | _ => destruct x eqn:?
              end
          end;
          cbn [negb andb orb] in *);
  cbn [negb andb orb snapshot_of].

Lemma step_keeps (s s' : AppState) :
  step s s' →
  (sessionStorage s = snapshot_of (currentUser s) →
   sessionStorage s' = snapshot_of (currentUser s'))
  ∧ (isLoading s = false → isLoading s' = false)
  ∧ (authInitialized s = true → authInitialized s' = true).
Proof.
  destruct 1.
  - unfold onAuthStateChange, loadUserFundsOf, already_loaded. run_cases; done.
  - unfold authTimeout. run_cases; done.
  - unfold login, awaited. run_cases; done.
  - unfold refreshCurrentUser. run_cases; done.
  - unfold loadUsers. run_cases; done.
  - unfold findUserByEmail, awaited. run_cases; done.
  - unfold addMemberByEmail, loadUserFundsOf, awaited. run_cases; done.
  - unfold loadUserFunds, loadUserFundsOf. run_cases; done.
  - unfold loadFundTransactions. run_cases; done.
  - unfold createFund, awaited. run_cases; done.
  - unfold updateFund, awaited. run_cases; done.
  - unfold deleteFund. run_cases; done.
  - unfold fetchFundById, awaited. run_cases; done.
  - unfold createTransaction, awaited. run_cases; done.
  - unfold deleteTransactionById, awaited. run_cases; done.
  - done.
Qed.

Lemma reachable_keeps (storage : Snapshot) (s : AppState) :
  reachable storage s →
  sessionStorage s = snapshot_of (currentUser s) ∧ isLoading s = false.
Proof.
  induction 1 as [cachedFunds|s s' _ [IH1 IH2] Hstep].
  - unfold restoreSession, initialState, loadUserFundsOf. run_cases; done.
  - destruct (step_keeps _ _ Hstep) as (H1 & H2 & _). auto.
Qed.

Lemma restoreSession_snapshot_of (u : option User)
    (cachedFunds : Outcome (list Fund)) :
  let s := snd (restoreSession cachedFunds (initialState (snapshot_of u))) in
  currentUser s = u ∧ sessionStorage s = snapshot_of u.
Proof.
  unfold restoreSession, initialState, loadUserFundsOf.
  destruct u as [v|]; cbn [snapshot_of]; run_cases; done.
Qed.

(** X3: after the provider has mounted, whatever operations complete, the
    snapshot in the session storage is the current user (no snapshot when
    nobody is signed in), and no completed operation leaves the loading flag
    set. *)
Theorem provider_invariants (storage : Snapshot) (s : AppState) :
  reachable storage s →
  sessionStorage s = snapshot_of (currentUser s) ∧ isLoading s = false.
Proof. apply reachable_keeps. Qed.

Lemma provider_invariants_witness :
  let cached := mkUser "u1" "Old name" "a@x.org" "" None in
  let s0 := snd (restoreSession (Rejected ThrownValue) (initialState (StoredUser cached))) in
  let s1 := snd (refreshCurrentUser
                   (Resolved [("u1", mkUser "u1" "New name" "a@x.org" "" None)]) s0) in
  let s2 := snd (deleteFund "f1" (Rejected (ErrorObject "offline")) s1) in
  sessionStorage s2 = StoredUser (mkUser "u1" "New name" "a@x.org" "" None)
  ∧ isLoading s2 = false.
Proof.
  cbn zeta.
  refine (provider_invariants (StoredUser (mkUser "u1" "Old name" "a@x.org" "" None)) _ _).
  eapply reachable_step; [eapply reachable_step; [apply reachable_mount |] |].
  - apply step_refreshCurrentUser.
  - apply step_deleteFund.
Defined.

(** X4: the snapshot survives a reload of the page.  From any state the
    provider can reach, mounting afresh on the session storage restores the
    same current user, and nobody when nobody was signed in. *)
Theorem snapshot_round_trip (storage : Snapshot) (s : AppState)
    (cachedFunds : Outcome (list Fund)) :
  reachable storage s →
  let remounted := snd (restoreSession cachedFunds (initialState (sessionStorage s))) in
  currentUser remounted = currentUser s
  ∧ sessionStorage remounted = sessionStorage s.
Proof.
  intros [Hmirror _]%reachable_keeps. cbn zeta. rewrite Hmirror.
  apply restoreSession_snapshot_of.
Qed.

Lemma snapshot_round_trip_witness :
  let full := mkUser "u1" "Minh" "minh@x.org" "" (Some "VCB 0123") in
  let s := snd (onAuthStateChange (mkClosure None [] false)
                  (Some (mkFirebaseUser "u1" None None None))
                  (Resolved full) (Resolved [])
                  (snd (restoreSession (Resolved []) (initialState NoSnapshot)))) in
  currentUser (snd (restoreSession (Resolved []) (initialState (sessionStorage s))))
  = Some full.
Proof.
  cbn zeta.
  refine (proj1 (snapshot_round_trip NoSnapshot _ (Resolved []) _)).
  eapply reachable_step; [apply reachable_mount | apply step_authEvent].
Defined.

(** X5: once the authentication state is known it stays known: no completed
    operation, in any number and order, resets [authInitialized]. *)
Theorem authInitialized_never_reverts (s s' : AppState) :
  rtc step s s' → authInitialized s = true → authInitialized s' = true.
Proof.
  induction 1 as [|s s1 s' Hstep _ IH]; [done |].
  intros Hs. apply IH. by apply (step_keeps _ _ Hstep).
Qed.

Lemma authInitialized_never_reverts_witness :
  let s := snd (authTimeout false (initialState NoSnapshot)) in
  let s' := snd (login (Rejected (ErrorObject "popup closed"))
                   (snd (onAuthStateChange (mkClosure None [] false) None
                           (Rejected ThrownValue) (Rejected ThrownValue) s))) in
  authInitialized s' = true.
Proof.
  cbn zeta.
  refine (authInitialized_never_reverts
            (snd (authTimeout false (initialState NoSnapshot))) _ _ _);
    [| reflexivity].
  eapply rtc_l; [apply step_authEvent |].
  eapply rtc_l; [apply step_login |]. apply rtc_refl.
Defined.

(** ** Session manager: degraded sign-in, protected routes, sign-out *)

(** X6: when the profile sync fails on the full path of the listener, the
    event is still handled without a rejection: the user becomes the minimal
    identity of the provider (same uid, the provider's display name or "User",
    never an empty name), that identity is stored as the snapshot, and loading
    ends.  No fund load is started: the funds and the "initially loaded" flag
    stay as they were and the sync is the only remote call. *)
Theorem sync_failure_degrades (cl : AuthClosure) (firebaseUser : FirebaseUser)
    (e : JsError) (fetchedFunds : Outcome (list Fund)) (s : AppState) :
  already_loaded cl firebaseUser = false →
  let result := onAuthStateChange cl (Some firebaseUser) (Rejected e) fetchedFunds s in
  let basicUser := convertFirebaseUser firebaseUser in
  fst result = Resolved tt
  ∧ currentUser (snd result) = Some basicUser
  ∧ sessionStorage (snd result) = StoredUser basicUser
  ∧ user_id basicUser = uid firebaseUser
  ∧ displayName basicUser ≠ ""
  ∧ isAuthLoading (snd result) = false
  ∧ authInitialized (snd result) = true
  ∧ funds (snd result) = funds s
  ∧ hasInitiallyLoaded (snd result) = hasInitiallyLoaded s
  ∧ trace (snd result) = (trace s ++ [Remote (CallSyncUser (uid firebaseUser))])%list.
Proof.
  intros Hal. cbn zeta. unfold onAuthStateChange. rewrite Hal. run_app.
  split_and!; try done.
  unfold convertFirebaseUser, Js.or_string. cbn [displayName].
  by destruct (fb_displayName firebaseUser) as [[|]|].
Qed.

Lemma sync_failure_degrades_witness :
  let result :=
    onAuthStateChange (mkClosure None [] false)
      (Some (mkFirebaseUser "u7" (Some "") (Some "lan@x.org") None))
      (Rejected (ErrorObject "permission-denied")) (Resolved [])
      (initialState NoSnapshot) in
  currentUser (snd result) = Some (mkUser "u7" "User" "lan@x.org" "" None).
Proof.
  cbn zeta.
  refine (proj1 (proj2 (sync_failure_degrades (mkClosure None [] false)
            (mkFirebaseUser "u7" (Some "") (Some "lan@x.org") None) _ _ _ _))).
  reflexivity.
Defined.

(** X7: what a protected route shows around the start of a session.  Right
    after the mount it shows the skeleton, also when a cached user was
    restored.  When the timer fires before any event it shows the outlet for a
    restored user and the login page otherwise.  After a signed-in event it
    shows the outlet whether the profile sync succeeded or failed, and after a
    signed-out event the login page. *)
Theorem protectedRoute_session (storage : Snapshot)
    (cachedFunds : Outcome (list Fund)) :
  let mounted := snd (restoreSession cachedFunds (initialState storage)) in
  protectedRoute mounted = ShowSkeleton
  ∧ protectedRoute (snd (authTimeout false mounted))
    = match storage with StoredUser _ => ShowOutlet | _ => ShowLogin end
  ∧ (∀ firebaseUser synced fetchedFunds,
       protectedRoute
         (snd (sessionAfterEvent storage cachedFunds (Some firebaseUser)
                 synced fetchedFunds)) = ShowOutlet)
  ∧ (∀ cl synced fetchedFunds s,
       protectedRoute (snd (onAuthStateChange cl None synced fetchedFunds s))
       = ShowLogin).
Proof.
  cbn zeta. unfold protectedRoute. split_and!.
  - unfold restoreSession, initialState, loadUserFundsOf. run_cases; done.
  - unfold authTimeout, restoreSession, initialState, loadUserFundsOf.
    run_cases; done.
  - intros firebaseUser synced fetchedFunds.
    unfold sessionAfterEvent, restoreSession, initialState, onAuthStateChange,
      already_loaded, loadUserFundsOf.
    run_cases; done.
  - done.
Qed.

(** X8: a signed-out event leaves nothing of the session to show: every
    non-empty id that names no member of [Object.prototype] resolves to its
    placeholder, not to a cached profile, and the balances of every fund are
    empty. *)
Theorem signed_out_shows_nothing (cl : AuthClosure) (synced : Outcome User)
    (fetchedFunds : Outcome (list Fund)) (s : AppState) :
  let s' := snd (onAuthStateChange cl None synced fetchedFunds s) in
  (∀ id, id ≠ "" → Js.inherited id = false →
         getUserById s' (Some id) = placeholderUser id)
  ∧ (∀ f, calculateBalances (transactions s') f = []).
Proof.
  cbn zeta. split; [| done].
  intros id Hid _. rewrite getUserById_truthy by done.
  unfold cachedOrPlaceholder, onAuthStateChange. run_app.
  by rewrite lookup_empty.
Qed.

(** ** Fund store: creating, patching, fetching *)

Lemma createFund_resolved (service : FundDraft → string → Outcome Fund)
    (fund : FundDraft) (cu : User) (newFund : Fund) (s : AppState) :
  currentUser s = Some cu →
  service fund (user_id cu) = Resolved newFund →
  createFund service fund s
  = (Resolved (Some newFund),
     setIsLoading false
       (emit (ToastSuccess "Đã tạo quỹ mới thành công!")
          (setSelectedFund (Some newFund)
             (emit FundsWritten
                (setFunds (funds s ++ [newFund])%list (setIsLoading true s)))))).
Proof.
  intros Hcu Hsvc. unfold createFund, with_render, awaited. rewrite Hcu.
  run_app. by rewrite Hsvc.
Qed.

Lemma deleteFund_resolved (fundId' : string) (cu : User) (s : AppState) :
  currentUser s = Some cu →
  let s' := snd (deleteFund fundId' (Resolved tt) s) in
  funds s' = List.filter (λ f, negb (bool_decide (fund_id f = fundId'))) (funds s)
  ∧ selectedFund s' = if selected_is s fundId' then None else selectedFund s.
Proof.
  intros Hcu. cbn zeta. unfold deleteFund, with_render. rewrite Hcu. run_app.
  by destruct (selected_is s fundId').
Qed.

Lemma filter_other_ids (k : string) (l : list Fund) :
  k ∉ map fund_id l →
  List.filter (λ f, negb (bool_decide (fund_id f = k))) l = l.
Proof.
  induction l as [|f l IH]; cbn [map List.filter]; [done |].
  intros [Hne Hnin]%not_elem_of_cons.
  rewrite bool_decide_eq_false_2 by congruence. cbn [negb]. by rewrite IH.
Qed.

(** X9: creating a fund and then deleting it gives the funds back.  With a
    signed-in user, when the store assigns an id that no local fund carries,
    [createFund] appends the new fund and selects it, and a successful
    [deleteFund] of that id restores the former list of funds and clears the
    selection. *)
Theorem createFund_deleteFund_round_trip
    (service : FundDraft → string → Outcome Fund) (fund : FundDraft)
    (cu : User) (newFund : Fund) (s : AppState) :
  currentUser s = Some cu →
  service fund (user_id cu) = Resolved newFund →
  fund_id newFund ∉ map fund_id (funds s) →
  let s1 := snd (createFund service fund s) in
  let s2 := snd (deleteFund (fund_id newFund) (Resolved tt) s1) in
  funds s1 = (funds s ++ [newFund])%list
  ∧ selectedFund s1 = Some newFund
  ∧ funds s2 = funds s
  ∧ selectedFund s2 = None.
Proof.
  intros Hcu Hsvc Hfresh. cbn zeta.
  rewrite (createFund_resolved _ _ _ _ _ Hcu Hsvc).
  cbn [snd].
  set (s1 := setIsLoading false _).
  assert (Hcu1 : currentUser s1 = Some cu) by done.
  destruct (deleteFund_resolved (fund_id newFund) cu s1 Hcu1) as [Hf Hsel].
  rewrite Hf, Hsel. subst s1. unfold selected_is.
  cbn [funds selectedFund setIsLoading emit setSelectedFund setFunds].
  rewrite bool_decide_eq_true_2 by done. split_and!; try done.
  rewrite List.filter_app, filter_other_ids by done. cbn [List.filter].
  rewrite bool_decide_eq_true_2 by done. cbn [negb]. apply app_nil_r.
Qed.

Lemma createFund_deleteFund_round_trip_witness :
  let me := mkUser "A" "An" "" "" None in
  let s := setFunds [mkFund "f1" "Trip" "" ["A"; "B"] 0 "A"]
             (setCurrentUser (Some me) (initialState NoSnapshot)) in
  let service := λ (d : FundDraft) (owner : string),
                   Resolved (mkFund "f2" (new_name d) (new_description d)
                               (new_members d) 7 owner) in
  let s1 := snd (createFund service (mkFundDraft "Rent" "" ["A"]) s) in
  funds (snd (deleteFund "f2" (Resolved tt) s1)) = funds s.
Proof.
  cbn zeta.
  refine (proj1 (proj2 (proj2
    (createFund_deleteFund_round_trip _ (mkFundDraft "Rent" "" ["A"])
       (mkUser "A" "An" "" "" None) (mkFund "f2" "Rent" "" ["A"] 7 "A") _ _ _ _)))).
  - reflexivity.
  - reflexivity.
  - vm_compute. by intros [Hf|Hf]%elem_of_cons; [| apply elem_of_nil in Hf].
Defined.

Lemma NoDup_ids_filter (p : Fund → bool) (l : list Fund) :
  NoDup (map fund_id l) → NoDup (map fund_id (List.filter p l)).
Proof.
  induction l as [|f l IH]; cbn [map List.filter]; [done |].
  intros [Hnin Hnd]%NoDup_cons. destruct (p f); cbn [map]; [| auto].
  apply NoDup_cons. split; [| auto]. intros Hin. apply Hnin.
  apply list_elem_of_In, in_map_iff in Hin as (g & Hg & [Hin _]%filter_In).
  apply list_elem_of_In, in_map_iff. by exists g.
Qed.

Lemma map_id_patch (k : string) (fundData : FundPatch) (l : list Fund) :
  map fund_id
    (map (λ fund, if bool_decide (fund_id fund = k)
                  then applyPatch fund fundData else fund) l)
  = map fund_id l.
Proof.
  rewrite map_map. apply map_ext. intros f. by case_bool_decide.
Qed.

Lemma find_id_None (k : string) (l : list Fund) :
  List.find (λ f, bool_decide (fund_id f = k)) l = None → k ∉ map fund_id l.
Proof.
  intros Hfind Hin. apply list_elem_of_In, in_map_iff in Hin as (f & Hf & Hin).
  pose proof (find_none _ _ Hfind f Hin) as Hn. cbn beta in Hn.
  by apply bool_decide_eq_false in Hn.
Qed.

Lemma NoDup_ids_snoc (f : Fund) (l : list Fund) :
  NoDup (map fund_id l) → fund_id f ∉ map fund_id l →
  NoDup (map fund_id (l ++ [f])%list).
Proof.
  intros Hnd Hnin. rewrite map_app. apply NoDup_app. split_and!; [done | |].
  - intros x Hx ->%list_elem_of_singleton. done.
  - apply NoDup_singleton.
Qed.

(** X10: the operations on single funds keep the ids of the local funds
    distinct.  Starting from distinct ids, [updateFund] and [deleteFund] keep
    them distinct whatever the store answers; [createFund] does when the store
    assigns an id no local fund carries; [fetchFundById] does when the store
    answers with a fund of the id that was asked for. *)
Theorem fund_ids_stay_distinct (s : AppState) :
  NoDup (map fund_id (funds s)) →
  (∀ service fundId' fundData,
     NoDup (map fund_id (funds (snd (updateFund service fundId' fundData s)))))
  ∧ (∀ fundId' settled,
       NoDup (map fund_id (funds (snd (deleteFund fundId' settled s)))))
  ∧ (∀ service fund,
       (∀ cu newFund, currentUser s = Some cu →
          service fund (user_id cu) = Resolved newFund →
          fund_id newFund ∉ map fund_id (funds s)) →
       NoDup (map fund_id (funds (snd (createFund service fund s)))))
  ∧ (∀ service fundId',
       (∀ fetched, service fundId' = Resolved (Some fetched) →
          fund_id fetched = fundId') →
       NoDup (map fund_id (funds (snd (fetchFundById service fundId' s))))).
Proof.
  intros Hnd. split_and!.
  - intros service fundId' fundData. unfold updateFund, with_render, awaited.
    destruct (currentUser s); [| done]. run_app.
    destruct (service fundId' fundData); [| done].
    destruct (selected_is s fundId'); cbn; by rewrite map_id_patch.
  - intros fundId' settled. unfold deleteFund, with_render.
    destruct (currentUser s); [| done]. run_app.
    destruct settled; [| done].
    destruct (selected_is s fundId'); cbn; by apply NoDup_ids_filter.
  - intros service fund Hfresh. unfold createFund, with_render, awaited.
    destruct (currentUser s) as [cu|] eqn:Hcu; [| done]. run_app.
    destruct (service fund (user_id cu)) as [newFund|] eqn:Hsvc; [| done].
    cbn. apply NoDup_ids_snoc; [done |]. by eapply Hfresh.
  - intros service fundId' Hid. unfold fetchFundById, with_render, awaited.
    run_app. destruct (service fundId') as [[fetched|]|] eqn:Hsvc; [| done | done].
    match goal with
    | |- context [List.find ?p ?l] => destruct (List.find p l) eqn:Hfind
    end; [done |].
    cbn. apply NoDup_ids_snoc; [done |]. rewrite (Hid _ eq_refl).
    by apply find_id_None.
Qed.

Lemma fund_ids_stay_distinct_witness :
  let s := setFunds [mkFund "f1" "Trip" "" ["A"; "B"] 0 "A";
                     mkFund "f2" "Rent" "" ["A"] 1 "A"]
             (setCurrentUser (Some (mkUser "A" "An" "" "" None))
                (initialState NoSnapshot)) in
  NoDup (map fund_id
           (funds (snd (fetchFundById
                          (λ k, Resolved (Some (mkFund k "Food" "" ["B"] 2 "B")))
                          "f3" s)))).
Proof.
  cbn zeta.
  refine (proj2 (proj2 (proj2 (fund_ids_stay_distinct _ _))) _ "f3" _).
  - change (NoDup ["f1"; "f2"]). apply NoDup_cons. split; [| apply NoDup_singleton].
    rewrite list_elem_of_singleton. discriminate.
  - by intros fetched [= <-].
Defined.

Lemma updateFund_resolved (service : string → FundPatch → Outcome unit)
    (fundId' : string) (fundData : FundPatch) (cu : User) (s : AppState) :
  currentUser s = Some cu →
  service fundId' fundData = Resolved tt →
  let result := updateFund service fundId' fundData s in
  fst result = Resolved true
  ∧ funds (snd result)
    = map (λ fund, if bool_decide (fund_id fund = fundId')
                   then applyPatch fund fundData else fund) (funds s)
  ∧ selectedFund (snd result)
    = (if selected_is s fundId'
       then option_map (λ f, applyPatch f fundData) (selectedFund s)
       else selectedFund s)
  ∧ currentUser (snd result) = Some cu.
Proof.
  intros Hcu Hsvc. cbn zeta. unfold updateFund, with_render, awaited.
  rewrite Hcu. run_app. rewrite Hsvc.
  by destruct (selected_is s fundId') eqn:Hsel; cbn; split_and!.
Qed.

(** X11: the selected fund stays one of the local funds.  When the
    selection is listed among the funds, it still is after [createFund]
    (which selects the fund it appends), [updateFund] (which patches the
    selection together with the listed fund), [deleteFund] (which clears the
    selection when it deletes the selected fund) and [fetchFundById], whatever
    the store answers. *)
Theorem selection_stays_listed (s : AppState) :
  selection_listed s →
  (∀ service fund, selection_listed (snd (createFund service fund s)))
  ∧ (∀ service fundId' fundData,
       selection_listed (snd (updateFund service fundId' fundData s)))
  ∧ (∀ fundId' settled, selection_listed (snd (deleteFund fundId' settled s)))
  ∧ (∀ service fundId', selection_listed (snd (fetchFundById service fundId' s))).
Proof.
  unfold selection_listed.
  destruct s as [cur fs txs sel ial ai il us hil ss tr].
  cbn [selectedFund funds]. intros Hsel. split_and!.
  - intros service fund. unfold createFund, with_render, awaited. run_app.
    destruct cur as [cu|]; [| done].
    destruct (service fund (user_id cu)) as [newFund|]; [| done].
    intros f [= <-]. apply elem_of_app. right. apply list_elem_of_here.
  - intros service fundId' fundData.
    unfold updateFund, with_render, awaited, selected_is. run_app.
    destruct cur as [cu|]; [| done].
    destruct (service fundId' fundData); [| done].
    destruct sel as [g|]; [| done]. specialize (Hsel g eq_refl).
    case_bool_decide as Hid; intros f [= <-];
      apply list_elem_of_In, in_map_iff; exists g;
      (split; [| by apply list_elem_of_In]).
    + by rewrite bool_decide_eq_true_2.
    + by rewrite bool_decide_eq_false_2.
  - intros fundId' settled. unfold deleteFund, with_render, selected_is. run_app.
    destruct cur as [cu|]; [| done].
    destruct settled; [| done].
    destruct sel as [g|]; [| done]. specialize (Hsel g eq_refl).
    case_bool_decide as Hid; [done |]. intros f [= <-].
    apply list_elem_of_In, filter_In. split; [by apply list_elem_of_In |].
    by rewrite bool_decide_eq_false_2.
  - intros service fundId'. unfold fetchFundById, with_render, awaited. run_app.
    destruct (service fundId') as [[fetched|]|]; [| done | done].
    destruct (List.find _ fs); [done |].
    intros f Hf. apply elem_of_app. left. by apply Hsel.
Qed.

Lemma selection_stays_listed_witness :
  let trip := mkFund "f1" "Trip" "" ["A"; "B"] 0 "A" in
  let s := setSelectedFund (Some trip)
             (setFunds [trip]
                (setCurrentUser (Some (mkUser "A" "An" "" "" None))
                   (initialState NoSnapshot))) in
  selection_listed
    (snd (updateFund (λ _ _, Resolved tt) "f1"
            (mkFundPatch (Some "Trip 2025") None None) s)).
Proof.
  cbn zeta.
  refine (proj1 (proj2 (selection_stays_listed _ _)) _ "f1" _).
  intros f [= <-]. apply list_elem_of_here.
Defined.

Lemma applyPatch_idempotent (f : Fund) (fundData : FundPatch) :
  applyPatch (applyPatch f fundData) fundData = applyPatch f fundData.
Proof.
  unfold applyPatch. cbn.
  by destruct (patch_name fundData), (patch_description fundData),
    (patch_members fundData).
Qed.

(** X12: a successful [updateFund] by a signed-in user rewrites only the
    patched fields of the funds with the given id: ids, creation times and
    creators of all funds stay in place, funds of other ids are untouched, and
    applying the same patch again changes nothing.  Position by position, a
    fund of another id is the fund it was, and in a fund of the given id the
    name, the description and the members each take the value the patch
    gives them and keep their former value when the patch has none.  When the
    store rejects the update the promise resolves with [false], the funds and
    the selection are as before and the error is shown as a notification. *)
Theorem updateFund_patch (service : string → FundPatch → Outcome unit)
    (fundId' : string) (fundData : FundPatch) (cu : User) (s : AppState) :
  currentUser s = Some cu →
  (service fundId' fundData = Resolved tt →
   let s1 := snd (updateFund service fundId' fundData s) in
   map fund_id (funds s1) = map fund_id (funds s)
   ∧ map fund_createdAt (funds s1) = map fund_createdAt (funds s)
   ∧ map createdBy (funds s1) = map createdBy (funds s)
   ∧ (∀ f, f ∈ funds s → fund_id f ≠ fundId' → f ∈ funds s1)
   ∧ funds (snd (updateFund service fundId' fundData s1)) = funds s1
   ∧ Forall2
       (λ before after,
          (fund_id before ≠ fundId' → after = before)
          ∧ (fund_id before = fundId' →
             (∀ name, patch_name fundData = Some name → fund_name after = name)
             ∧ (patch_name fundData = None → fund_name after = fund_name before)
             ∧ (∀ text, patch_description fundData = Some text →
                        fund_description after = text)
             ∧ (patch_description fundData = None →
                fund_description after = fund_description before)
             ∧ (∀ ids, patch_members fundData = Some ids → members after = ids)
             ∧ (patch_members fundData = None → members after = members before)))
       (funds s) (funds s1)
   ∧ (selectedFund s1
      = match selectedFund s with
        | Some sel =>
            if bool_decide (fund_id sel = fundId')
            then Some (mkFund (fund_id sel)
                         (default (fund_name sel) (patch_name fundData))
                         (default (fund_description sel) (patch_description fundData))
                         (default (members sel) (patch_members fundData))
                         (fund_createdAt sel) (createdBy sel))
            else Some sel
        | None => None
        end))
  ∧ (∀ e, service fundId' fundData = Rejected e →
     let result := updateFund service fundId' fundData s in
     fst result = Resolved false
     ∧ funds (snd result) = funds s
     ∧ selectedFund (snd result) = selectedFund s
     ∧ trace (snd result)
       = (trace s ++ [ToastError (errorMessage e "Không thể cập nhật quỹ")])%list).
Proof.
  intros Hcu. split.
  - intros Hsvc. cbn zeta.
    destruct (updateFund_resolved service fundId' fundData cu s Hcu Hsvc)
      as (_ & Hfunds & Hsel & Hcu1).
    destruct (updateFund_resolved service fundId' fundData cu _ Hcu1 Hsvc)
      as (_ & Hfunds2 & _ & _).
    rewrite Hfunds2, Hfunds, Hsel. split_and!; cycle 5.
    + clear. generalize (funds s). intros l.
      induction l as [|f l IH]; cbn [map]; constructor; [| done].
      case_bool_decide as Hid; (split; [done |]); intros Hid'; [| done].
      unfold applyPatch. cbn [fund_name fund_description members].
      split_and!; try (by intros ? ->); by intros ->.
    + unfold selected_is. destruct (selectedFund s) as [sel|]; [| done].
      by case_bool_decide.
    + apply map_id_patch.
    + rewrite map_map. apply map_ext. intros f. by case_bool_decide.
    + rewrite map_map. apply map_ext. intros f. by case_bool_decide.
    + intros f Hf Hid. apply list_elem_of_In, in_map_iff. exists f.
      rewrite bool_decide_eq_false_2 by done. by rewrite <- list_elem_of_In.
    + rewrite map_map. apply map_ext. intros f. cbn beta.
      destruct (decide (fund_id f = fundId')) as [Hid|Hid].
      * rewrite (bool_decide_eq_true_2 (fund_id f = fundId')) by done.
        rewrite bool_decide_eq_true_2 by done. apply applyPatch_idempotent.
      * rewrite (bool_decide_eq_false_2 (fund_id f = fundId')) by done.
        by rewrite bool_decide_eq_false_2.
  - intros e Hsvc. cbn zeta. unfold updateFund, with_render, awaited.
    rewrite Hcu. run_app. by rewrite Hsvc.
Qed.

Lemma updateFund_patch_witness :
  let trip := mkFund "f1" "Trip" "" ["A"; "B"] 0 "A" in
  let rent := mkFund "f2" "Rent" "" ["A"] 1 "A" in
  let s := setFunds [trip; rent]
             (setCurrentUser (Some (mkUser "A" "An" "" "" None))
                (initialState NoSnapshot)) in
  let s1 := snd (updateFund (λ _ _, Resolved tt) "f1"
                   (mkFundPatch (Some "Trip 2025") None (Some ["A"; "B"; "C"])) s) in
  funds s1 = [mkFund "f1" "Trip 2025" "" ["A"; "B"; "C"] 0 "A"; rent]
  ∧ map fund_id (funds s1) = map fund_id (funds s).
Proof.
  cbn zeta. split; [reflexivity |].
  refine (proj1 (proj1 (updateFund_patch (λ _ _, Resolved tt) "f1" _
            (mkUser "A" "An" "" "" None) _ _) _)); reflexivity.
Defined.

(** X13: [fetchFundById] never removes or replaces a local fund: the funds
    before are a prefix of the funds after.  When the store has the fund, the
    promise resolves with the fetched fund, which is appended only when no
    local fund carries the requested id; a local fund of that id is kept as it
    is, also when the fetched one differs.  When the store has no such fund or
    the call fails, the promise resolves with [null] and the funds are
    unchanged. *)
Theorem fetchFundById_keeps_local (service : string → Outcome (option Fund))
    (fundId' : string) (s : AppState) :
  let result := fetchFundById service fundId' s in
  (∃ added, funds (snd result) = (funds s ++ added)%list)
  ∧ (∀ fetched, service fundId' = Resolved (Some fetched) →
       fst result = Resolved (Some fetched)
       ∧ (fundId' ∈ map fund_id (funds s) → funds (snd result) = funds s)
       ∧ (fundId' ∉ map fund_id (funds s) →
          funds (snd result) = (funds s ++ [fetched])%list))
  ∧ (service fundId' = Resolved None ∨ (∃ e, service fundId' = Rejected e) →
     fst result = Resolved None ∧ funds (snd result) = funds s).
Proof.
  cbn zeta. destruct s as [cur fs txs sel ial ai il us hil ss tr].
  unfold fetchFundById, with_render, awaited. run_app.
  assert (Hfind : ∀ g, List.find (λ f, bool_decide (fund_id f = fundId')) fs = Some g →
            fundId' ∈ map fund_id fs).
  { intros g [Hin Hid%bool_decide_eq_true]%find_some.
    apply list_elem_of_In, in_map_iff. by exists g. }
  destruct (service fundId') as [[fetched|]|e] eqn:Hsvc.
  - destruct (List.find _ fs) as [g|] eqn:Hg.
    + split_and!.
      * exists []. by rewrite app_nil_r.
      * intros ? [= <-]. split_and!; [done | done |].
        intros Hnin. destruct Hnin. by eapply Hfind.
      * by intros [?|[? ?]].
    + apply find_id_None in Hg. split_and!.
      * by exists [fetched].
      * intros ? [= <-]. by split_and!.
      * by intros [?|[? ?]].
  - split_and!; [exists []; by rewrite app_nil_r | done | done].
  - split_and!; [exists []; by rewrite app_nil_r | done | done].
Qed.

(** ** Fund store: failed loads and new members *)

(** X14: [loadUserFunds] with an empty user id does nothing at all: no
    remote call, and the "initially loaded" flag is not set.  For a non-empty
    id the flag is set whether the fetch succeeds or fails; a failed fetch
    leaves the funds as they were, shows an error notification and the
    promise still resolves. *)
Theorem loadUserFunds_failure (s : AppState) :
  (∀ settled, loadUserFunds "" settled s = (Resolved tt, s))
  ∧ (∀ userId' settled, userId' ≠ "" →
       let result := loadUserFunds userId' settled s in
       fst result = Resolved tt
       ∧ hasInitiallyLoaded (snd result) = true
       ∧ isLoading (snd result) = false)
  ∧ (∀ userId' e, userId' ≠ "" →
       let result := loadUserFunds userId' (Rejected e) s in
       funds (snd result) = funds s
       ∧ trace (snd result)
         = (trace s ++ [Remote (CallGetUserFunds userId');
                        ToastError "Không thể tải danh sách quỹ"])%list).
Proof.
  split_and!.
  - done.
  - intros userId' settled Hid. cbn zeta. unfold loadUserFunds, with_render,
      loadUserFundsOf. rewrite truthy_string_true by done. cbn [negb].
    run_app. by destruct settled.
  - intros userId' e Hid. cbn zeta. unfold loadUserFunds, with_render,
      loadUserFundsOf. rewrite truthy_string_true by done. cbn [negb].
    run_app. by rewrite <- app_assoc.
Qed.

(** X15: [addMemberByEmail] resolves with [true] exactly when the store
    reports that the user was added; it never rejects.  With a signed-in user
    a reported success is followed by a reload of the funds: when the reload
    succeeds the funds are the merge of the local funds and the response (the
    fund with its new member list replaces the local copy), and when it fails
    the promise still resolves with [true] and the funds are unchanged.  In
    every other case, an empty fund id or email included, the funds are
    unchanged. *)
Theorem addMemberByEmail_reloads (service : string → string → Outcome bool)
    (fetchedFunds : Outcome (list Fund)) (fundId' email' : string) (s : AppState) :
  let result := addMemberByEmail service fetchedFunds fundId' email' s in
  (fst result = Resolved true
   ↔ fundId' ≠ "" ∧ email' ≠ "" ∧ service fundId' email' = Resolved true)
  ∧ (fst result = Resolved true ∨ fst result = Resolved false)
  ∧ (fst result = Resolved true →
     ∀ cu, currentUser s = Some cu → user_id cu ≠ "" →
       match fetchedFunds with
       | Resolved fetched => funds (snd result) = mergeFunds (funds s) fetched
       | Rejected _ => funds (snd result) = funds s
       end)
  ∧ (fst result = Resolved false → funds (snd result) = funds s).
Proof.
  cbn zeta. destruct s as [cur fs txs sel ial ai il us hil ss tr].
  unfold addMemberByEmail, with_render, awaited, loadUserFundsOf.
  destruct (Js.truthy_string fundId') eqn:Hf; cbn [negb orb].
  2: { split_and!; [split; [done |] | by right | done | done].
       intros [? _]. by rewrite truthy_string_true in Hf. }
  destruct (Js.truthy_string email') eqn:He; cbn [negb orb].
  2: { split_and!; [split; [done |] | by right | done | done].
       intros (_ & ? & _). by rewrite truthy_string_true in He. }
  assert (fundId' ≠ "") by (by destruct fundId').
  assert (email' ≠ "") by (by destruct email').
  run_app.
  destruct (service fundId' email') as [[|]|e] eqn:Hsvc.
  - destruct cur as [cu|].
    + destruct (Js.truthy_string (user_id cu)) eqn:Hcu; cbn [negb].
      * destruct fetchedFunds;
          (split_and!; [by split | by left | by intros _ ? [= <-] _ | done]).
      * split_and!; [by split | by left | | done].
        intros _ ? [= <-] Hne. by rewrite truthy_string_true in Hcu.
    + split_and!; [by split | by left | done | done].
  - split_and!; [split; [done | by intros (_ & _ & ?)] | by right | done | done].
  - split_and!; [split; [done | by intros (_ & _ & ?)] | by right | done | done].
Qed.

(** ** Transaction store: creating and deleting *)

Lemma existsb_id (k : string) (l : list Transaction) :
  existsb (λ t, bool_decide (tx_id t = k)) l = true ↔ k ∈ map tx_id l.
Proof.
  rewrite existsb_exists, list_elem_of_In, in_map_iff. split.
  - intros (t & Hin & Hid%bool_decide_eq_true). by exists t.
  - intros (t & Hid & Hin). exists t. by rewrite bool_decide_eq_true.
Qed.

Lemma upsert_fresh (new : Transaction) (prev : list Transaction) :
  tx_id new ∉ map tx_id prev → upsertTransaction new prev = (prev ++ [new])%list.
Proof.
  intros Hnin. unfold upsertTransaction.
  destruct (existsb _ prev) eqn:He; [| done]. by apply existsb_id in He.
Qed.

Lemma upsert_present (new : Transaction) (prev : list Transaction) :
  tx_id new ∈ map tx_id prev →
  upsertTransaction new prev
  = map (λ t, if bool_decide (tx_id t = tx_id new) then new else t) prev.
Proof.
  intros Hin. unfold upsertTransaction. apply existsb_id in Hin. by rewrite Hin.
Qed.

Lemma upsert_ids (new : Transaction) (prev : list Transaction) :
  map tx_id (upsertTransaction new prev)
  = if decide (tx_id new ∈ map tx_id prev)
    then map tx_id prev else (map tx_id prev ++ [tx_id new])%list.
Proof.
  case_decide as Hin.
  - rewrite upsert_present by done. rewrite map_map. apply map_ext.
    intros t. by case_bool_decide.
  - rewrite upsert_fresh by done. by rewrite map_app.
Qed.

Lemma createTransaction_resolved (calculate : NewTransaction → list Split)
    (service : NewTransaction → Outcome Transaction) (clock : Clock)
    (transaction : NewTransaction) (new : Transaction) (s : AppState) :
  service (transactionWithDate calculate clock transaction) = Resolved new →
  createTransaction calculate service clock transaction s
  = (Resolved (Some new),
     setIsLoading false
       (emit (ToastSuccess "Đã thêm giao dịch mới thành công!")
          (setTransactions (upsertTransaction new (transactions s))
             (setIsLoading true s)))).
Proof.
  intros Hsvc. unfold createTransaction, awaited. run_app. by rewrite Hsvc.
Qed.

(** X16: [createTransaction] files the transaction the store returns under
    its id.  An id no local transaction carries puts it last in the list,
    whatever its date; an id already present replaces every holder of that
    id in place.  Either way the new transaction is in the list, transactions of
    other ids are kept, and ids that were distinct stay distinct.  When the
    store rejects, the promise resolves with [undefined], the transactions are
    unchanged and the error is shown as a notification. *)
Theorem createTransaction_upsert (calculate : NewTransaction → list Split)
    (service : NewTransaction → Outcome Transaction) (clock : Clock)
    (transaction : NewTransaction) (s : AppState) :
  let result := createTransaction calculate service clock transaction s in
  let request := transactionWithDate calculate clock transaction in
  (∀ new, service request = Resolved new →
     fst result = Resolved (Some new)
     ∧ new ∈ transactions (snd result)
     ∧ (tx_id new ∉ map tx_id (transactions s) →
        transactions (snd result) = (transactions s ++ [new])%list)
     ∧ (tx_id new ∈ map tx_id (transactions s) →
        map tx_id (transactions (snd result)) = map tx_id (transactions s))
     ∧ (∀ t, t ∈ transactions s → tx_id t ≠ tx_id new →
             t ∈ transactions (snd result))
     ∧ (NoDup (map tx_id (transactions s)) →
        NoDup (map tx_id (transactions (snd result)))))
  ∧ (∀ e, service request = Rejected e →
     fst result = Resolved None
     ∧ transactions (snd result) = transactions s
     ∧ trace (snd result)
       = (trace s ++ [ToastError (errorMessage e "Không thể tạo giao dịch mới")])%list).
Proof.
  cbn zeta. split.
  - intros new Hsvc. rewrite (createTransaction_resolved _ _ _ _ _ _ Hsvc).
    cbn [fst snd transactions setIsLoading emit setTransactions].
    split_and!.
    + done.
    + destruct (decide (tx_id new ∈ map tx_id (transactions s))) as [Hin|Hnin].
      * rewrite upsert_present by done.
        apply list_elem_of_In, in_map_iff in Hin as (t & Hid & Hin).
        apply list_elem_of_In, in_map_iff. exists t.
        by rewrite bool_decide_eq_true_2.
      * rewrite upsert_fresh by done. apply elem_of_app. right.
        apply list_elem_of_here.
    + apply upsert_fresh.
    + intros Hin. by rewrite upsert_ids, decide_True.
    + intros t Ht Hid.
      destruct (decide (tx_id new ∈ map tx_id (transactions s))) as [Hin|Hnin].
      * rewrite upsert_present by done. apply list_elem_of_In, in_map_iff.
        exists t. rewrite bool_decide_eq_false_2 by done.
        by rewrite <- list_elem_of_In.
      * rewrite upsert_fresh by done. apply elem_of_app. by left.
    + intros Hnd. rewrite upsert_ids. case_decide; [done |].
      apply NoDup_app. split_and!; [done | | apply NoDup_singleton].
      by intros x Hx ->%list_elem_of_singleton.
  - intros e Hsvc. unfold createTransaction, awaited. run_app. by rewrite Hsvc.
Qed.

Lemma deleteTransactionById_resolved (service : string → Outcome unit)
    (transactionId : string) (s : AppState) :
  service transactionId = Resolved tt →
  deleteTransactionById service transactionId s
  = (Resolved true,
     setIsLoading false
       (emit (ToastSuccess "Giao dịch đã được xóa thành công!")
          (setTransactions
             (List.filter (λ t, negb (bool_decide (tx_id t = transactionId)))
                (transactions s))
             (setIsLoading true s)))).
Proof.
  intros Hsvc. unfold deleteTransactionById, awaited. run_app. by rewrite Hsvc.
Qed.

(** X17: [deleteTransaction] needs no signed-in user.  When the store
    confirms, the promise resolves with [true] and the transactions are the
    former ones without those of the given id, in the same order; when the
    store rejects, it resolves with [false], the transactions are unchanged
    and the error is shown as a notification. *)
Theorem deleteTransaction_filters (service : string → Outcome unit)
    (transactionId : string) (s : AppState) :
  let result := deleteTransactionById service transactionId s in
  (service transactionId = Resolved tt →
   fst result = Resolved true
   ∧ transactions (snd result)
     = List.filter (λ t, negb (bool_decide (tx_id t = transactionId)))
         (transactions s)
   ∧ (∀ t, t ∈ transactions (snd result)
           ↔ t ∈ transactions s ∧ tx_id t ≠ transactionId))
  ∧ (∀ e, service transactionId = Rejected e →
     fst result = Resolved false
     ∧ transactions (snd result) = transactions s
     ∧ trace (snd result)
       = (trace s ++ [ToastError (errorMessage e "Không thể xóa giao dịch")])%list).
Proof.
  cbn zeta. split.
  - intros Hsvc. rewrite (deleteTransactionById_resolved _ _ _ Hsvc).
    cbn [fst snd transactions setIsLoading emit setTransactions].
    split_and!; [done | done |]. intros t.
    by rewrite list_elem_of_In, filter_In, <- list_elem_of_In, negb_true_iff,
      bool_decide_eq_false.
  - intros e Hsvc. unfold deleteTransactionById, awaited. run_app.
    by rewrite Hsvc.
Qed.

Lemma filter_other_tx_ids (k : string) (l : list Transaction) :
  k ∉ map tx_id l →
  List.filter (λ t, negb (bool_decide (tx_id t = k))) l = l.
Proof.
  induction l as [|t l IH]; cbn [map List.filter]; [done |].
  intros [Hne Hnin]%not_elem_of_cons.
  rewrite bool_decide_eq_false_2 by congruence. cbn [negb]. by rewrite IH.
Qed.

(** X18: creating a transaction and then deleting it gives the transactions
    back: when the store assigns an id no local transaction carries, a
    successful [deleteTransaction] of that id after [createTransaction]
    restores the former list. *)
Theorem createTransaction_deleteTransaction_round_trip
    (calculate : NewTransaction → list Split)
    (create : NewTransaction → Outcome Transaction)
    (delete : string → Outcome unit) (clock : Clock)
    (transaction : NewTransaction) (new : Transaction) (s : AppState) :
  create (transactionWithDate calculate clock transaction) = Resolved new →
  tx_id new ∉ map tx_id (transactions s) →
  delete (tx_id new) = Resolved tt →
  let s1 := snd (createTransaction calculate create clock transaction s) in
  let s2 := snd (deleteTransactionById delete (tx_id new) s1) in
  transactions s2 = transactions s.
Proof.
  intros Hcreate Hfresh Hdelete. cbn zeta.
  rewrite (createTransaction_resolved _ _ _ _ _ _ Hcreate).
  rewrite (deleteTransactionById_resolved _ _ _ Hdelete).
  cbn [fst snd transactions setIsLoading emit setTransactions].
  rewrite upsert_fresh by done.
  rewrite List.filter_app, filter_other_tx_ids by done. cbn [List.filter].
  rewrite bool_decide_eq_true_2 by done. cbn [negb]. apply app_nil_r.
Qed.

Lemma createTransaction_deleteTransaction_round_trip_witness :
  let lunch := mkTransaction "t1" "f1" "Lunch" 90 "A"
                 [mkSplit "A" 45; mkSplit "B" 45] 1000 2000 in
  let s := setTransactions [lunch] (initialState NoSnapshot) in
  let create := λ r : NewTransaction,
                  Resolved (mkTransaction "t2" (new_fundId r) (new_tx_description r)
                              (new_amount r) (new_paidBy r) (new_splits r) 3000
                              (default 0 (new_date r))) in
  let draft := mkNewTransaction "f1" "Taxi" 40 "B" [] None in
  let s1 := snd (createTransaction (λ _, [mkSplit "A" 20; mkSplit "B" 20])
                   create (λ _, 3000) draft s) in
  transactions (snd (deleteTransactionById (λ _, Resolved tt) "t2" s1)) = [lunch].
Proof.
  cbn zeta.
  refine (createTransaction_deleteTransaction_round_trip _ _ (λ _, Resolved tt)
            (λ _, 3000) (mkNewTransaction "f1" "Taxi" 40 "B" [] None)
            (mkTransaction "t2" "f1" "Taxi" 40 "B"
               [mkSplit "A" 20; mkSplit "B" 20] 3000 3000) _ _ _ _).
  - reflexivity.
  - change ("t2" ∉ ["t1"]). rewrite list_elem_of_singleton. discriminate.
  - reflexivity.
Defined.

(** ** Transaction store: failed loads, scope and order *)

Lemma calculateBalances_other_fund (txs : list Transaction) (g : string) :
  (∀ t, t ∈ txs → fundId t ≠ g) → calculateBalances txs g = [].
Proof.
  intros Hother. unfold calculateBalances.
  assert (List.filter (λ t, bool_decide (fundId t = g)) txs = []) as ->; [| done].
  induction txs as [|t txs IH]; cbn [List.filter]; [done |].
  rewrite bool_decide_eq_false_2 by (apply Hother, list_elem_of_here).
  apply IH. intros ? ?. by apply Hother, list_elem_of_further.
Qed.

(** X19: [loadFundTransactions] with an empty fund id does nothing.  When
    the fetch fails the transactions stay as they were, the error is shown as
    a notification and the promise still resolves.  After a successful load
    whose rows carry the requested fund id or none, every local transaction
    belongs to that fund, so the balances of any other fund are empty. *)
Theorem loadFundTransactions_scope (s : AppState) (clock : Clock) :
  (∀ settled, loadFundTransactions "" settled clock s = (Resolved tt, s))
  ∧ (∀ f e, f ≠ "" →
       let result := loadFundTransactions f (Rejected e) clock s in
       fst result = Resolved tt
       ∧ transactions (snd result) = transactions s
       ∧ trace (snd result)
         = (trace s ++ [Remote (CallGetFundTransactions f);
                        ToastError "Không thể tải danh sách giao dịch"])%list)
  ∧ (∀ f fetched, f ≠ "" →
       (∀ raw, raw ∈ fetched → raw_fundId raw = None ∨ raw_fundId raw = Some f) →
       let s1 := snd (loadFundTransactions f (Resolved fetched) clock s) in
       (∀ t, t ∈ transactions s1 → fundId t = f)
       ∧ (∀ g, g ≠ f → calculateBalances (transactions s1) g = [])).
Proof.
  split_and!.
  - done.
  - intros f e Hf. cbn zeta. unfold loadFundTransactions.
    rewrite truthy_string_true by done. cbn [negb]. run_app.
    by rewrite <- app_assoc.
  - intros f fetched Hf Hraw. cbn zeta.
    rewrite loadFundTransactions_resolved by done.
    cbn [snd transactions setIsLoading setTransactions].
    assert (Hfund : ∀ t, t ∈ sortTransactions (processTransactions f clock 0 fetched) →
              fundId t = f).
    { intros t Ht. unfold sortTransactions in Ht. rewrite sort_by_perm in Ht.
      apply elem_of_processTransactions in Ht as (raw & tick & Hin & ->).
      destruct (validTransaction_fields f clock tick raw) as (_ & -> & _).
      destruct (Hraw raw Hin) as [-> | ->]; [done |].
      cbn [Js.or_string]. by destruct f. }
    split; [done |]. intros g Hg. apply calculateBalances_other_fund.
    intros t Ht. by rewrite (Hfund t Ht).
Qed.

Lemma sort_by_sorted_id {A} (le : A → A → bool) (l : list A) :
  StronglySorted (λ a b, le a b = true) l → Js.sort_by le l = l.
Proof.
  unfold Js.sort_by. induction 1 as [|a l Hs IH Hall]; cbn [fold_right]; [done |].
  rewrite IH. destruct l as [|b l]; cbn [Js.insert_by]; [done |].
  by rewrite (Forall_inv Hall).
Qed.

(** X20: sorting leaves a list that is already in descending order of date
    as it is, so sorting twice is sorting once. *)
Theorem sortTransactions_idempotent (l : list Transaction) :
  (StronglySorted (λ a b, effective_date b ≤ effective_date a) l →
   sortTransactions l = l)
  ∧ sortTransactions (sortTransactions l) = sortTransactions l.
Proof.
  assert (Hid : ∀ k, StronglySorted (λ a b, effective_date b ≤ effective_date a) k →
            sortTransactions k = k).
  { intros k Hk. unfold sortTransactions. apply sort_by_sorted_id.
    eapply StronglySorted_weaken; [| exact Hk].
    intros a b _ _ Hab. cbn beta in *. unfold compare_by_date.
    apply Z.leb_le. lia. }
  split; [apply Hid |]. apply Hid, sortTransactions_sorted.
Qed.

(** ** User cache: refreshing the current user and the members of the funds *)

(** X21: [refreshCurrentUser] never rejects and never touches the user
    cache or the funds.  Without a current user (or with one whose id is
    empty) it changes nothing.  Otherwise it issues one batch call for the
    current id; when the response holds a profile under that id, the profile
    becomes the current user and the stored snapshot, and [getUserById] of
    that id returns it from then on even if the cache holds an older entry;
    when the response lacks it or the call fails, the current user and the
    snapshot stay as they were. *)
Theorem refreshCurrentUser_updates (settled : Outcome (Js.JsObject User))
    (s : AppState) :
  let result := refreshCurrentUser settled s in
  fst result = Resolved tt
  ∧ users (snd result) = users s
  ∧ funds (snd result) = funds s
  ∧ ((∀ cu, currentUser s = Some cu → user_id cu = "") → snd result = s)
  ∧ (∀ cu, currentUser s = Some cu → user_id cu ≠ "" →
       trace (snd result)
       = (trace s ++ [Remote (CallGetUsersByIds [user_id cu])])%list
       ∧ match settled with
         | Resolved refreshedUsers =>
             match Js.get refreshedUsers (user_id cu) with
             | Some updatedUser =>
                 currentUser (snd result) = Some updatedUser
                 ∧ sessionStorage (snd result) = StoredUser updatedUser
                 ∧ (user_id updatedUser = user_id cu →
                    getUserById (snd result) (Some (user_id cu)) = updatedUser)
             | None =>
                 currentUser (snd result) = Some cu
                 ∧ sessionStorage (snd result) = sessionStorage s
             end
         | Rejected _ =>
             currentUser (snd result) = Some cu
             ∧ sessionStorage (snd result) = sessionStorage s
         end).
Proof.
  cbn zeta. destruct s as [cur fs txs sel ial ai il us hil ss tr].
  unfold refreshCurrentUser, with_render. run_app.
  destruct cur as [cu|]; [| by split_and!].
  destruct (Js.truthy_string (user_id cu)) eqn:Hcu; cbn [negb].
  - assert (Hne : user_id cu ≠ "") by (intros Hid; by rewrite Hid in Hcu).
    destruct settled as [refreshedUsers|e].
    + destruct (Js.get refreshedUsers (user_id cu)) as [updatedUser|] eqn:Hget.
      * split_and!; try done.
        -- intros Hempty. destruct Hne. by apply Hempty.
        -- intros ? [= <-] _. rewrite Hget. split_and!; try done.
           intros Hid. rewrite getUserById_truthy by done.
           cbn [currentUser]. by rewrite decide_True.
      * split_and!; try done.
        -- intros Hempty. destruct Hne. by apply Hempty.
        -- intros ? [= <-] _. by rewrite Hget.
    + split_and!; try done.
      * intros Hempty. destruct Hne. by apply Hempty.
      * by intros ? [= <-] _.
  - split_and!; try done. intros ? [= <-] Hne.
    by rewrite truthy_string_true in Hcu.
Qed.

Lemma elem_of_fundMemberIds (fs : list Fund) (m : string) :
  m ∈ fundMemberIds fs ↔ m ≠ "" ∧ ∃ fund, fund ∈ fs ∧ m ∈ members fund.
Proof.
  unfold fundMemberIds. rewrite (proj2 (dedupe_spec _)).
  rewrite list_elem_of_In, filter_In, in_flat_map.
  assert (Js.truthy_string m = true ↔ m ≠ "") as -> by by destruct m.
  split.
  - intros [(fund & Hf & Hm) Hne]. split; [done |]. exists fund.
    by rewrite !list_elem_of_In.
  - intros [Hne (fund & Hf & Hm)]. split; [| done]. exists fund.
    by rewrite <- !list_elem_of_In.
Qed.

Lemma loadFundMembers_loadUsers (settled : Outcome (Js.JsObject User))
    (s : AppState) (fund : Fund) (m : string) :
  hasInitiallyLoaded s = true → fund ∈ funds s → m ∈ members fund → m ≠ "" →
  loadFundMembers settled s = loadUsers (fundMemberIds (funds s)) settled s.
Proof.
  intros Hloaded Hfund Hm Hne. unfold loadFundMembers, with_render.
  rewrite Hloaded. cbn [negb orb].
  destruct (funds s) as [|f0 fs] eqn:Hfs; [by apply elem_of_nil in Hfund |].
  cbn [length Nat.eqb].
  assert (Hin : m ∈ fundMemberIds (f0 :: fs)).
  { apply elem_of_fundMemberIds. split; [done |]. by exists fund. }
  destruct (fundMemberIds (f0 :: fs)) as [|i ids]; [by apply elem_of_nil in Hin |].
  done.
Qed.

(** X22: once the funds are loaded, the effect of the dashboard makes the
    members of the funds known.  After its batch call has succeeded, every
    non-empty member id of a local fund that names no member of
    [Object.prototype] and exists remotely resolves through [getUserById] to
    a real profile: the current user, the profile the cache
    already held, or the one just fetched.  A member that exists neither
    remotely nor locally resolves to its placeholder. *)
Theorem dashboard_resolves_members (s : AppState) (db : gmap string User) :
  hasInitiallyLoaded s = true →
  let ids := uniqueIds s (fundMemberIds (funds s)) in
  let s1 := snd (loadFundMembers (Resolved (getUsersByIds db ids)) s) in
  ∀ fund m, fund ∈ funds s → m ∈ members fund → m ≠ "" →
    Js.inherited m = false →
    (∀ u, db !! m = Some u →
       (∃ cu, currentUser s = Some cu ∧ user_id cu = m
              ∧ getUserById s1 (Some m) = cu)
       ∨ (∃ v, users s !! m = Some v ∧ getUserById s1 (Some m) = v)
       ∨ getUserById s1 (Some m) = u)
    ∧ (db !! m = None →
       (∀ cu, currentUser s = Some cu → user_id cu ≠ m) →
       users s !! m = None →
       getUserById s1 (Some m) = placeholderUser m).
Proof.
  intros Hloaded ids s1 fund m Hfund Hm Hne Hplain.
  assert (Hreq : m ∈ fundMemberIds (funds s)).
  { apply elem_of_fundMemberIds. split; [done |]. by exists fund. }
  assert (Hnd : NoDup ids) by apply NoDup_filter_bool, dedupe_spec.
  destruct (keys_getUsersByIds db ids Hnd) as [Hkeys Hsub].
  assert (Hs1 : currentUser s1 = currentUser s
                ∧ (m ∉ ids → users s1 !! m = users s !! m)
                ∧ (m ∈ ids → users s1 !! m = db !! m)).
  { subst s1. rewrite (loadFundMembers_loadUsers _ _ fund m) by done.
    destruct (decide (ids = [])) as [Hnil|Hnonnil].
    - rewrite loadUsers_nothing_to_fetch by done. cbn [snd].
      split_and!; [done | done |]. fold ids. rewrite Hnil. by intros ?%elem_of_nil.
    - rewrite loadUsers_fetch by done.
      cbn [snd users currentUser setIsLoading setUsers emit]. fold ids.
      split_and!; [done | |].
      + intros Hnin. apply mergeUsers_absent. intros Hk. by apply Hnin, Hsub.
      + intros Hin. destruct (db !! m) as [u|] eqn:Hdb.
        * apply mergeUsers_present; [done |]. by apply elem_of_getUsersByIds.
        * rewrite mergeUsers_absent.
          -- by apply elem_of_uniqueIds in Hin as (_ & _ & _ & ? & _).
          -- intros Hk. apply list_elem_of_In, in_map_iff in Hk as ([k v] & Hkv & Hin').
             cbn [fst] in Hkv. subst k.
             apply list_elem_of_In, elem_of_getUsersByIds in Hin' as [_ ?].
             congruence. }
  destruct Hs1 as (Hcur & Hout & Hin).
  rewrite getUserById_truthy by done. unfold cachedOrPlaceholder. rewrite Hcur.
  assert (Hcases : m ∈ ids
                   ∨ (∃ cu, currentUser s = Some cu ∧ user_id cu = m)
                   ∨ ((m ∉ ids) ∧ (∃ v, users s !! m = Some v))).
  { destruct (decide (m ∈ ids)) as [?|Hnin]; [by left | right].
    destruct (currentUser s) as [cu|] eqn:Hcu.
    - destruct (decide (user_id cu = m)) as [?|Hid]; [left; by exists cu | right].
      split; [done |]. destruct (users s !! m) as [v|] eqn:Hv; [by exists v |].
      destruct Hnin. apply elem_of_uniqueIds. split_and!; try done.
      intros cu' Hcu'. rewrite Hcu in Hcu'. by simplify_eq.
    - right. split; [done |].
      destruct (users s !! m) as [v|] eqn:Hv; [by exists v |].
      destruct Hnin. apply elem_of_uniqueIds. split_and!; try done.
      intros cu' Hcu'. rewrite Hcu in Hcu'. by simplify_eq. }
  split.
  - intros u Hdb. destruct Hcases as [Hmin | [(cu & Hcu & Hid) | (Hnin & v & Hv)]].
    + right. right. apply elem_of_uniqueIds in Hmin as Hm'.
      destruct Hm' as (_ & _ & Hnot & _). rewrite Hin, Hdb by done.
      destruct (currentUser s) as [cu|] eqn:Hcu; [| done].
      rewrite decide_False; [done | by apply Hnot].
    + left. exists cu. rewrite Hcu. by rewrite decide_True.
    + destruct (currentUser s) as [cu|] eqn:Hcu.
      * destruct (decide (user_id cu = m)) as [Hid|Hid].
        -- left. by exists cu.
        -- right. left. exists v. by rewrite Hout, Hv.
      * right. left. exists v. by rewrite Hout, Hv.
  - intros Hdb Hnot Hnone.
    assert (users s1 !! m = None) as ->.
    { destruct (decide (m ∈ ids)); [by rewrite Hin | by rewrite Hout]. }
    destruct (currentUser s) as [cu|] eqn:Hcu; [| done].
    rewrite decide_False; [done | by apply Hnot].
Qed.

Lemma dashboard_resolves_members_witness :
  let me := mkUser "A" "An" "an@x.org" "" None in
  let binh := mkUser "B" "Binh" "binh@x.org" "" None in
  let db : gmap string User := <["A" := me]> (<["B" := binh]> ∅) in
  let s := setHasInitiallyLoaded true
             (setFunds [mkFund "f1" "Trip" "" ["A"; "B"; "C"] 0 "A"]
                (setCurrentUser (Some me) (initialState NoSnapshot))) in
  let ids := uniqueIds s (fundMemberIds (funds s)) in
  let s1 := snd (loadFundMembers (Resolved (getUsersByIds db ids)) s) in
  getUserById s1 (Some "C") = placeholderUser "C".
Proof.
  cbn zeta.
  refine (proj2 (dashboard_resolves_members _ _ _
                   (mkFund "f1" "Trip" "" ["A"; "B"; "C"] 0 "A") "C" _ _ _ _) _ _ _).
  - reflexivity.
  - apply list_elem_of_here.
  - cbn [members]. do 2 apply list_elem_of_further. apply list_elem_of_here.
  - discriminate.
  - reflexivity.
  - by vm_compute.
  - intros cu [= <-]. discriminate.
  - by vm_compute.
Defined.

(** ** Session manager: the mount, the timer and the fund load of the listener *)

(** X23: what the mount does with the session storage.  Without a usable
    snapshot nobody is signed in, no remote call is made, the funds stay empty
    and the authentication stays in the loading state; a snapshot that does
    not parse is removed.  A stored user becomes the current user at once,
    loading ends, and one fund load is started for the stored id: when it
    succeeds the funds are the response with every id kept once. *)
Theorem restoreSession_cases (cachedFunds : Outcome (list Fund)) :
  (∀ storage, storage = NoSnapshot ∨ storage = Unparsable →
     let s := snd (restoreSession cachedFunds (initialState storage)) in
     currentUser s = None ∧ sessionStorage s = NoSnapshot ∧ funds s = []
     ∧ isAuthLoading s = true ∧ hasInitiallyLoaded s = false ∧ trace s = [])
  ∧ (∀ u, let s := snd (restoreSession cachedFunds (initialState (StoredUser u))) in
     currentUser s = Some u ∧ sessionStorage s = StoredUser u
     ∧ isAuthLoading s = false ∧ authInitialized s = false
     ∧ (user_id u ≠ "" →
        remote_calls (trace s) = [CallGetUserFunds (user_id u)]
        ∧ hasInitiallyLoaded s = true
        ∧ ∀ fetched, cachedFunds = Resolved fetched →
            funds s = mergeFunds [] fetched ∧ NoDup (map fund_id (funds s)))).
Proof.
  split.
  - by intros storage [-> | ->].
  - intros u. cbn zeta. unfold restoreSession, initialState, loadUserFundsOf,
      with_render.
    run_app. destruct (Js.truthy_string (user_id u)) eqn:Hu; cbn [negb].
    + destruct cachedFunds as [fetched|e]; (split_and!; try done);
        intros _; split_and!; try done.
      intros ? [= <-]. split; [done |]. apply mergeFunds_NoDup.
    + split_and!; try done. intros Hne. by rewrite truthy_string_true in Hu.
Qed.

(** X24: the fund load started by the listener replaces the funds.  The
    listener was created by the first render, whose funds are empty; when the
    provider mounted without a stored user and a signed-in event is synced,
    the funds afterwards are the fetched funds with every id kept once,
    whatever funds the provider held when the event arrived. *)
Theorem listener_load_replaces_funds (storage : Snapshot)
    (cachedFunds : Outcome (list Fund)) (cl : AuthClosure) (s0 s : AppState)
    (firebaseUser : FirebaseUser) (fullUser : User) (fetched : list Fund) :
  restoreSession cachedFunds (initialState storage) = (Resolved cl, s0) →
  hasRestoredFromCache cl = false →
  user_id fullUser ≠ "" →
  let s' := snd (onAuthStateChange cl (Some firebaseUser) (Resolved fullUser)
                   (Resolved fetched) s) in
  currentUser s' = Some fullUser
  ∧ funds s' = mergeFunds [] fetched
  ∧ hasInitiallyLoaded s' = true
  ∧ trace s'
    = (trace s ++ [Remote (CallSyncUser (uid firebaseUser));
                   Remote (CallGetUserFunds (user_id fullUser));
                   FundsWritten])%list.
Proof.
  intros Hmount Hcache Hid.
  destruct (restored_closure_never_matches storage cachedFunds firebaseUser)
    as (cl' & s0' & Heq & Hseen & Hfunds & _ & Hal).
  rewrite Hmount in Heq. injection Heq as <- <-.
  destruct cl as [seen seenFunds restored].
  cbn [seen_currentUser seen_funds hasRestoredFromCache] in *. subst.
  cbn zeta. unfold onAuthStateChange, loadUserFundsOf, already_loaded.
  run_app. cbn [negb]. rewrite truthy_string_true by done. cbn [negb].
  by rewrite <- !app_assoc.
Qed.

Lemma listener_load_replaces_funds_witness :
  let held := setFunds [mkFund "f9" "Draft" "" ["A"] 0 "A"] (initialState NoSnapshot) in
  let s' := snd (onAuthStateChange (mkClosure None [] false)
                   (Some (mkFirebaseUser "A" None None None))
                   (Resolved (mkUser "A" "An" "" "" None))
                   (Resolved [mkFund "f1" "Trip" "" ["A"] 1 "A"]) held) in
  funds s' = [mkFund "f1" "Trip" "" ["A"] 1 "A"].
Proof.
  cbn zeta.
  refine (proj1 (proj2 (listener_load_replaces_funds NoSnapshot (Resolved [])
            (mkClosure None [] false) (initialState NoSnapshot) _
            (mkFirebaseUser "A" None None None) (mkUser "A" "An" "" "" None)
            [mkFund "f1" "Trip" "" ["A"] 1 "A"] _ _ _)));
    [reflexivity | reflexivity | discriminate].
Defined.

(** X25: the timer of the effect always reads the [authInitialized] of the
    first render, so it always fires.  Fired after an authentication event it
    changes nothing; fired at any other moment it ends the loading state and
    marks the authentication as known, and leaves the user, the funds, the
    transactions, the cache and the snapshot alone. *)
Theorem authTimeout_effect (s : AppState) :
  (∀ cl firebaseUser synced fetchedFunds,
     let s' := snd (onAuthStateChange cl firebaseUser synced fetchedFunds s) in
     authTimeout false s' = (Resolved tt, s'))
  ∧ (let s' := snd (authTimeout false s) in
     isAuthLoading s' = false ∧ authInitialized s' = true
     ∧ currentUser s' = currentUser s ∧ funds s' = funds s
     ∧ transactions s' = transactions s ∧ users s' = users s
     ∧ sessionStorage s' = sessionStorage s ∧ trace s' = trace s).
Proof.
  split; [| by split_and!].
  intros cl firebaseUser synced fetchedFunds. cbn zeta.
  destruct s as [cur fs txs sel ial ai il us hil ss tr].
  unfold authTimeout, onAuthStateChange, loadUserFundsOf, already_loaded.
  run_cases; done.
Qed.
